(** * astroplan scheduling: a shallow embedding of [astroplan/scheduling.py]

    The development follows the source file top to bottom: the block value
    objects ([ImageSet], [ObservingBlock], [TransitionBlock]), the
    [Transitioner], the abstract [Scheduler] driver and its two greedy
    strategies, [SequentialScheduler] and [SummingScheduler].

    Modelling conventions.
    - Time instants and time quantities are exact rationals ([Q]); the
      comparisons [==] and [<] of the source are [Qeq] and [Qlt].  Rounding of
      machine floats is not modelled.
    - A Python exception is a value of [PyExc]; code that may raise returns
      in [Res].  The [while] loop of the strategies is run with fuel; [None]
      means that the fuel ran out before the loop condition became false.
    - A numpy array is the list of its elements in C order.
    - A [dict] is an association list in insertion order. *)

From Stdlib Require Import List String Bool Arith ZArith QArith Qround Lia Lqa.
From Stdlib Require Import Permutation Sorted.
Import ListNotations.
Open Scope Q_scope.

(** ** Python effects *)

Inductive PyExc : Set :=
| TypeError
| AttributeError
| ValueError
| AssertionError
| NotImplementedError.

Inductive Res (A : Type) : Type :=
| Ok (a : A)
| Raise (e : PyExc).

Arguments Ok {A} a.
Arguments Raise {A} e.

Definition bind {A B : Type} (m : Res A) (k : A -> Res B) : Res B :=
  match m with
  | Ok a => k a
  | Raise e => Raise e
  end.

Notation "x <- m ;; k" := (bind m (fun x => k))
  (at level 61, m at next level, right associativity).

(** A statement sequence run for each element of a list, in order; the first
    exception leaves the loop. *)
Fixpoint for_each {A B : Type} (body : A -> Res B) (l : list A) : Res (list B) :=
  match l with
  | [] => Ok []
  | a :: l' =>
      b <- body a ;;
      bs <- for_each body l' ;;
      Ok (b :: bs)
  end.

(** ** Rationals: the comparisons the source uses *)

Definition Qlt_bool (x y : Q) : bool := negb (Qle_bool y x).

(** ** numpy *)

Module np.

(** [np.prod] and [np.sum] of a list of equally shaped arrays: over every
    element of every array.  The empty product is 1, the empty sum 0. *)
Definition prod (arrays : list (list Q)) : Q :=
  fold_right Qmult 1 (List.concat arrays).

Definition sum (arrays : list (list Q)) : Q :=
  fold_right Qplus 0 (List.concat arrays).

(** [np.argmax] of a sequence of scalars: the index of the first occurrence
    of the maximum. *)
Fixpoint argmax_from (l : list Q) (i best_idx : nat) (best : Q) : nat :=
  match l with
  | [] => best_idx
  | x :: l' =>
      if Qlt_bool best x then argmax_from l' (S i) i x
      else argmax_from l' (S i) best_idx best
  end.

Definition argmax (l : list Q) : nat :=
  match l with
  | [] => 0%nat
  | x :: l' => argmax_from l' 1 0 x
  end.

(** The truth value of an array, as [assert a] and [if a:] take it: the
    element of a one-element array, [False] for an empty one, and
    [ValueError] ("the truth value of an array with more than one element is
    ambiguous") otherwise. *)
Definition truth (a : list bool) : Res bool :=
  match a with
  | [] => Ok false
  | [b] => Ok b
  | _ :: _ :: _ => Raise ValueError
  end.

End np.

(** ** Dictionaries with string keys *)

Definition dict (V : Type) : Type := list (string * V).

Fixpoint dict_set {V : Type} (k : string) (v : V) (d : dict V) : dict V :=
  match d with
  | [] => [(k, v)]
  | (k', v') :: d' =>
      if String.eqb k k' then (k, v) :: d' else (k', v') :: dict_set k v d'
  end.

Definition values {V : Type} (d : dict V) : list V := map snd d.

(** The truth value of a dict: non-empty. *)
Definition dict_truth {V : Type} (d : dict V) : bool :=
  match d with
  | [] => false
  | _ :: _ => true
  end.

(** ** Block value objects *)

(** A constraint is called as [constraint(observer, [target], times)] and
    returns an array of scores. *)
Definition Constraint (Observer Target : Type) : Type :=
  Observer -> list Target -> list Q -> list Q.

Module ImageSet.

Record t : Type := mk {
  duration : Q;
  configuration : dict string
}.

Definition from_exposures (timeperexp : Q) (nexp : Q) (overhead : Q)
    (configuration : dict string) : t :=
  let duration := nexp * (timeperexp + overhead) in
  mk duration configuration.

End ImageSet.

Module ObservingBlock.

(** [start_time], [end_time]: [None] until scheduled.  [constraints_value]
    does not exist before a strategy assigns it.  [_all_constraints] and
    [_duration_offsets] are the scratch attributes that [_make_schedule]
    assigns to every block before it reads them; they are empty here until
    then. *)
Record t {Observer Target : Type} : Type := mk {
  target : Target;
  duration : Q;
  constraints : option (list (Constraint Observer Target));
  priority : Q;
  start_time : option Q;
  end_time : option Q;
  constraints_value : option Q;
  _all_constraints : list (Constraint Observer Target);
  _duration_offsets : list Q
}.

Arguments t : clear implicits.
Arguments mk {Observer Target}.

Definition init {Observer Target : Type} (target : Target) (duration : Q)
    (constraints : option (list (Constraint Observer Target))) (priority : Q)
    : t Observer Target :=
  mk target duration constraints priority None None None [] [].

Definition from_imagesets {Observer Target : Type} (target : Target)
    (imageset_list : list ImageSet.t) (priority : Q) : t Observer Target :=
  let duration :=
    fold_left (fun d IS => d + ImageSet.duration IS) imageset_list 0 in
  init target duration None priority.

End ObservingBlock.

Module TransitionBlock.

Record t : Type := mk {
  start_time : option Q;
  _components : dict Q;
  duration : Q
}.

(** The [components] property: getter and setter. *)
Definition components (self : t) : dict Q := _components self.

Definition components_setter (self : t) (val : dict Q) : t :=
  let duration := fold_left (fun d t => d + t) (values val) 0 in
  {| start_time := start_time self;
     _components := val;
     duration := duration |}.

(** [__init__]: [start_time] is stored, then [components] goes through the
    setter, which creates [_components] and [duration]. *)
Definition init (components : dict Q) (start_time : option Q) : t :=
  let self := {| start_time := start_time; _components := []; duration := 0 |} in
  components_setter self components.

(** The [end_time] property.  [None + duration] is a [TypeError]. *)
Definition end_time (self : t) : Res Q :=
  match start_time self with
  | Some s => Ok (s + duration self)
  | None => Raise TypeError
  end.

(** Plain assignment to the [start_time] attribute. *)
Definition set_start_time (self : t) (val : option Q) : t :=
  {| start_time := val;
     _components := _components self;
     duration := duration self |}.

(** Plain assignment to the [duration] attribute, which the setter of
    [components] creates as an ordinary instance attribute: nothing else
    changes. *)
Definition set_duration (self : t) (val : Q) : t :=
  {| start_time := start_time self;
     _components := _components self;
     duration := val |}.

(** [self.components[key] = val]: the getter returns the stored dict itself,
    so the item assignment changes [_components] in place and does not go
    through the setter. *)
Definition components_setitem (self : t) (key : string) (val : Q) : t :=
  {| start_time := start_time self;
     _components := dict_set key val (_components self);
     duration := duration self |}.

End TransitionBlock.

(** An entry of a schedule. *)
Inductive Block {Observer Target : Type} : Type :=
| OB (b : ObservingBlock.t Observer Target)
| TB (b : TransitionBlock.t).

Arguments Block : clear implicits.

(** ** Transitioner *)

Module Transitioner.

(** [instrument_reconfig_times]: from a property name to a dictionary from
    (old state, new state) to the time the change takes. *)
Record t : Type := mk {
  slew_rate : option Q;
  instrument_reconfig_times : option (dict (list ((string * string) * Q)))
}.

Section Call.

Context {Observer Target : Type}.

(** The angular separation of two targets seen by [observer] at [time]:
    [_get_altaz] of [astroplan.constraints] followed by astropy's
    [separation]; both are collaborators outside [scheduling.py]. *)
Variable separation : Observer -> Q -> Target -> Target -> Q.

(** [__call__].  The class has no attribute [compute_instrument_transitions]:
    the [def] of that name stands inside [__call__], below its [return]
    statements, and is never executed; looking the attribute up on [self]
    raises [AttributeError]. *)
Definition call (self : t) (oldblock : option (Block Observer Target))
    (newblock : ObservingBlock.t Observer Target) (start_time : Q)
    (observer : Observer) : Res (option TransitionBlock.t) :=
  let components : dict Q := [] in
  let components :=
    match slew_rate self with
    | Some rate =>
        match oldblock with
        | Some (OB old) =>
            let sep :=
              separation observer start_time
                (ObservingBlock.target old) (ObservingBlock.target newblock) in
            dict_set "slew_time" (sep / rate) components
        | Some (TB _) => dict_set "slew_time" 0 components
        | None => components
        end
    | None => components
    end in
  components <-
    match instrument_reconfig_times self with
    | Some _ => Raise AttributeError
    | None => Ok components
    end ;;
  if dict_truth components
  then Ok (Some (TransitionBlock.init components (Some start_time)))
  else Ok None.

End Call.

End Transitioner.

(** ** Scheduler *)

Module Scheduler.

(** The attributes that [SequentialScheduler.__init__] and
    [SummingScheduler.__init__] store; the two constructors are the same. *)
Record t {Observer Target : Type} : Type := mk {
  constraints : list (Constraint Observer Target);
  start_time : Q;
  end_time : Q;
  observer : Observer;
  transitioner : option Transitioner.t;
  gap_time : Q
}.

Arguments t : clear implicits.
Arguments mk {Observer Target}.

(** [from_timespan] *)
Definition from_timespan {Observer Target : Type} (center_time duration : Q)
    (constraints : list (Constraint Observer Target)) (observer : Observer)
    (transitioner : option Transitioner.t) (gap_time : Q) : t Observer Target :=
  let start_time := center_time - duration / 2 in
  let end_time := center_time + duration / 2 in
  mk constraints start_time end_time observer transitioner gap_time.

End Scheduler.

Section Scheduling.

Context {Observer Target : Type}.
Variable separation : Observer -> Q -> Target -> Target -> Q.

Local Abbreviation OBlock := (ObservingBlock.t Observer Target).
Local Abbreviation SBlock := (Block Observer Target).
Local Abbreviation Sched := (Scheduler.t Observer Target).

(** *** The abstract driver *)

Definition entry_start_time (b : SBlock) : option Q :=
  match b with
  | OB o => ObservingBlock.start_time o
  | TB t => TransitionBlock.start_time t
  end.

(** [sorted(block_time_map)]: insertion of a key into the sorted keys.
    Comparing [None] with a number is a [TypeError]. *)
Fixpoint insert_key (k : option Q) (ks : list (option Q)) : Res (list (option Q)) :=
  match ks with
  | [] => Ok [k]
  | k' :: ks' =>
      match k, k' with
      | Some x, Some y =>
          if Qle_bool x y then Ok (k :: ks)
          else ks'' <- insert_key k ks' ;; Ok (k' :: ks'')
      | _, _ => Raise TypeError
      end
  end.

Fixpoint sorted_keys (ks : list (option Q)) : Res (list (option Q)) :=
  match ks with
  | [] => Ok []
  | k :: ks' => s <- sorted_keys ks' ;; insert_key k s
  end.

Definition key_eqb (k k' : option Q) : bool :=
  match k, k' with
  | Some x, Some y => Qeq_bool x y
  | None, None => true
  | _, _ => false
  end.

(** [{block.start_time : block for block in new_blocks}]: a later block with
    an equal key replaces the earlier one. *)
Fixpoint block_time_map_set (k : option Q) (b : SBlock)
    (m : list (option Q * SBlock)) : list (option Q * SBlock) :=
  match m with
  | [] => [(k, b)]
  | (k', b') :: m' =>
      if key_eqb k k' then (k', b) :: m'
      else (k', b') :: block_time_map_set k b m'
  end.

Fixpoint block_time_map_get (k : option Q) (m : list (option Q * SBlock))
    : option SBlock :=
  match m with
  | [] => None
  | (k', b') :: m' => if key_eqb k k' then Some b' else block_time_map_get k m'
  end.

Definition sort_by_start_time (new_blocks : list SBlock) : Res (list SBlock) :=
  let block_time_map :=
    fold_left (fun m b => block_time_map_set (entry_start_time b) b m)
      new_blocks [] in
  ks <- sorted_keys (map fst block_time_map) ;;
  Ok (flat_map
        (fun k => match block_time_map_get k block_time_map with
                  | Some b => [b]
                  | None => []
                  end) ks).

(** [Scheduler.__call__] over a strategy's [_make_schedule].  [copy.copy] of
    a block is the block itself here: values are not shared. *)
Definition Scheduler_call
    (_make_schedule : list OBlock -> option (Res (list SBlock * bool)))
    (blocks : list OBlock) : option (Res (list SBlock)) :=
  let copied_blocks := map (fun block => block) blocks in
  match _make_schedule copied_blocks with
  | None => None
  | Some (Raise e) => Some (Raise e)
  | Some (Ok (new_blocks, already_sorted)) =>
      if negb already_sorted then Some (sort_by_start_time new_blocks)
      else Some (Ok new_blocks)
  end.

(** [Scheduler._make_schedule], the abstract method. *)
Definition Scheduler_make_schedule (blocks : list OBlock)
    : option (Res (list SBlock * bool)) :=
  Some (Raise NotImplementedError).

(** *** What the two strategies share

    The two [_make_schedule] bodies are the same text except for the lines
    that turn the constraint results of a block into its score. *)

(** The first [for] loop: the effective constraints and the three duration
    offsets of a block. *)
Definition prepare (self : Sched) (b : OBlock) : OBlock :=
  let all_constraints :=
    match ObservingBlock.constraints b with
    | None => Scheduler.constraints self
    | Some cs => Scheduler.constraints self ++ cs
    end in
  ObservingBlock.mk
    (ObservingBlock.target b) (ObservingBlock.duration b)
    (ObservingBlock.constraints b) (ObservingBlock.priority b)
    (ObservingBlock.start_time b) (ObservingBlock.end_time b)
    (ObservingBlock.constraints_value b)
    all_constraints
    [0; ObservingBlock.duration b / 2; ObservingBlock.duration b].

Record LoopState : Type := mkLoopState {
  blocks : list OBlock;
  new_blocks : list SBlock;
  current_time : Q
}.

(** [new_blocks[-1]] when [len(new_blocks) > 0]. *)
Fixpoint last_block (l : list SBlock) : option SBlock :=
  match l with
  | [] => None
  | [b] => Some b
  | _ :: l' => last_block l'
  end.

(** [self.transitioner(...)]: calling [None] is a [TypeError]. *)
Definition call_transitioner (self : Sched) (oldblock : SBlock) (b : OBlock)
    (current_time : Q) : Res (option TransitionBlock.t) :=
  match Scheduler.transitioner self with
  | Some tr =>
      Transitioner.call separation tr (Some oldblock) b current_time
        (Scheduler.observer self)
  | None => Raise TypeError
  end.

Definition block_transition (self : Sched) (new_blocks : list SBlock)
    (b : OBlock) (current_time : Q) : Res (option TransitionBlock.t) :=
  match last_block new_blocks with
  | Some prev => call_transitioner self prev b current_time
  | None => Ok None
  end.

Definition transition_time (trans : option TransitionBlock.t) : Q :=
  match trans with
  | None => 0
  | Some t => TransitionBlock.duration t
  end.

Definition sample_times (current_time : Q) (trans : option TransitionBlock.t)
    (b : OBlock) : list Q :=
  map (fun offset => current_time + transition_time trans + offset)
    (ObservingBlock._duration_offsets b).

(** [l.pop(i)] leaves [l] without its element of index [i]. *)
Definition pop {A : Type} (i : nat) (l : list A) : list A :=
  firstn i l ++ skipn (S i) l.

Definition schedule_block (newb : OBlock) (start_time end_time value : Q)
    : OBlock :=
  ObservingBlock.mk
    (ObservingBlock.target newb) (ObservingBlock.duration newb)
    (ObservingBlock.constraints newb) (ObservingBlock.priority newb)
    (Some start_time) (Some end_time) (Some value)
    (ObservingBlock._all_constraints newb)
    (ObservingBlock._duration_offsets newb).

(** [TransitionBlock({'nothing_observable': self.gap_time}, current_time)] *)
Definition nothing_observable (self : Sched) (current_time : Q)
    : TransitionBlock.t :=
  TransitionBlock.init
    [("nothing_observable"%string, Scheduler.gap_time self)]
    (Some current_time).

(** [if trans is not None: new_blocks.append(trans);
    current_time += trans.duration] *)
Definition append_transition (new_blocks : list SBlock)
    (trans : option TransitionBlock.t) : list SBlock :=
  match trans with
  | Some t => new_blocks ++ [TB t]
  | None => new_blocks
  end.

Definition after_transition (current_time : Q)
    (trans : option TransitionBlock.t) : Q :=
  match trans with
  | Some t => current_time + TransitionBlock.duration t
  | None => current_time
  end.

(** The two ways one pass through the [while] body changes the state,
    whatever the scores are: a gap, or the commit of the pending block of
    some index together with its transition. *)
Inductive step (self : Sched) (st : LoopState) : LoopState -> Prop :=
| step_gap :
    step self st
      (mkLoopState (blocks st)
         (new_blocks st ++ [TB (nothing_observable self (current_time st))])
         (current_time st + Scheduler.gap_time self))
| step_commit (idx : nat) (newb : OBlock) (trans : option TransitionBlock.t)
    (best : Q) :
    nth_error (blocks st) idx = Some newb ->
    block_transition self (new_blocks st) newb (current_time st) = Ok trans ->
    let current_time1 := after_transition (current_time st) trans in
    let current_time2 := current_time1 + Scheduler.gap_time self in
    step self st
      (mkLoopState (pop idx (blocks st))
         (append_transition (new_blocks st) trans
            ++ [OB (schedule_block newb current_time1 current_time2 best)])
         current_time2).

Section Loop.

(** The score of a block from its sample times. *)
Variable score : Sched -> OBlock -> list Q -> Res Q.

(** The inner [for b in blocks] body: the transition to [b] and its score. *)
Definition evaluate_block (self : Sched) (st : LoopState) (b : OBlock)
    : Res (option TransitionBlock.t * Q) :=
  trans <- block_transition self (new_blocks st) b (current_time st) ;;
  let times := sample_times (current_time st) trans b in
  r <- score self b times ;;
  Ok (trans, r).

(** One pass through the [while] body. *)
Definition loop_body (self : Sched) (st : LoopState) : Res LoopState :=
  evaluated <- for_each (evaluate_block self st) (blocks st) ;;
  let block_transitions := map fst evaluated in
  let block_constraint_results := map snd evaluated in
  let bestblock_idx := np.argmax block_constraint_results in
  match nth_error block_constraint_results bestblock_idx,
        nth_error block_transitions bestblock_idx,
        nth_error (blocks st) bestblock_idx with
  | Some best, Some trans, Some newb =>
      if Qeq_bool best 0 then
        let gap := nothing_observable self (current_time st) in
        Ok (mkLoopState (blocks st) (new_blocks st ++ [TB gap])
              (current_time st + Scheduler.gap_time self))
      else
        let new_blocks1 := append_transition (new_blocks st) trans in
        let current_time1 := after_transition (current_time st) trans in
        let current_time2 := current_time1 + Scheduler.gap_time self in
        let newb' := schedule_block newb current_time1 current_time2 best in
        Ok (mkLoopState (pop bestblock_idx (blocks st))
              (new_blocks1 ++ [OB newb']) current_time2)
  | _, _, _ => Raise ValueError
  end.

Definition loop_cond (self : Sched) (st : LoopState) : bool :=
  (0 <? List.length (blocks st))%nat
  && Qlt_bool (current_time st) (Scheduler.end_time self).

(** The [while] loop with fuel: [None] when [fuel] passes do not reach a
    state where the condition is false. *)
Fixpoint while_loop (fuel : nat) (self : Sched) (st : LoopState)
    : option (Res LoopState) :=
  if loop_cond self st then
    match fuel with
    | O => None
    | S fuel' =>
        match loop_body self st with
        | Ok st' => while_loop fuel' self st'
        | Raise e => Some (Raise e)
        end
    end
  else Some (Ok st).

Definition initial_state (self : Sched) (blocks : list OBlock) : LoopState :=
  mkLoopState (map (prepare self) blocks) [] (Scheduler.start_time self).

Definition make_schedule (fuel : nat) (self : Sched) (blocks : list OBlock)
    : option (Res (list SBlock * bool)) :=
  match while_loop fuel self (initial_state self blocks) with
  | None => None
  | Some (Raise e) => Some (Raise e)
  | Some (Ok st) => Some (Ok (new_blocks st, true))
  end.

End Loop.

End Scheduling.

(** ** SequentialScheduler *)

Module SequentialScheduler.

Section Strategy.

Context {Observer Target : Type}.
Variable separation : Observer -> Q -> Target -> Target -> Q.

(** The constraint results of a block and their product "over all the
    constraints and times". *)
Definition constraint_res (self : Scheduler.t Observer Target)
    (b : ObservingBlock.t Observer Target) (times : list Q) : list (list Q) :=
  map (fun constraint =>
         constraint (Scheduler.observer self) [ObservingBlock.target b] times)
    (ObservingBlock._all_constraints b).

Definition score (self : Scheduler.t Observer Target)
    (b : ObservingBlock.t Observer Target) (times : list Q) : Res Q :=
  Ok (np.prod (constraint_res self b times)).

Definition _make_schedule (fuel : nat) (self : Scheduler.t Observer Target)
    (blocks : list (ObservingBlock.t Observer Target))
    : option (Res (list (Block Observer Target) * bool)) :=
  make_schedule separation score fuel self blocks.

Definition call (fuel : nat) (self : Scheduler.t Observer Target)
    (blocks : list (ObservingBlock.t Observer Target))
    : option (Res (list (Block Observer Target))) :=
  Scheduler_call (_make_schedule fuel self) blocks.

End Strategy.

End SequentialScheduler.

(** ** SummingScheduler *)

Module SummingScheduler.

Section Strategy.

Context {Observer Target : Type}.
Variable separation : Observer -> Q -> Target -> Target -> Q.

(** The [for constraint in b._all_constraints] loop: [assert
    constraint_result >= 0], then [if constraint_result == 0: vetoed = True],
    then the result is appended.  Both tests take the truth value of the
    array that the comparison returns. *)
Fixpoint constraint_loop (self : Scheduler.t Observer Target)
    (b : ObservingBlock.t Observer Target) (times : list Q)
    (cs : list (Constraint Observer Target))
    (vetoed : bool) (constraint_res : list (list Q))
    : Res (bool * list (list Q)) :=
  match cs with
  | [] => Ok (vetoed, constraint_res)
  | constraint :: cs' =>
      let constraint_result :=
        constraint (Scheduler.observer self) [ObservingBlock.target b] times in
      nonneg <- np.truth (map (fun x => Qle_bool 0 x) constraint_result) ;;
      if negb nonneg then Raise AssertionError
      else
        zero <- np.truth (map (fun x => Qeq_bool x 0) constraint_result) ;;
        let vetoed := if zero then true else vetoed in
        constraint_loop self b times cs' vetoed
          (constraint_res ++ [constraint_result])
  end.

Definition score (self : Scheduler.t Observer Target)
    (b : ObservingBlock.t Observer Target) (times : list Q) : Res Q :=
  r <- constraint_loop self b times (ObservingBlock._all_constraints b)
         false [] ;;
  let vetoed := fst r in
  let constraint_res := snd r in
  if negb vetoed
  then Ok (ObservingBlock.priority b * np.sum constraint_res)
  else Ok 0.

Definition _make_schedule (fuel : nat) (self : Scheduler.t Observer Target)
    (blocks : list (ObservingBlock.t Observer Target))
    : option (Res (list (Block Observer Target) * bool)) :=
  make_schedule separation score fuel self blocks.

Definition call (fuel : nat) (self : Scheduler.t Observer Target)
    (blocks : list (ObservingBlock.t Observer Target))
    : option (Res (list (Block Observer Target))) :=
  Scheduler_call (_make_schedule fuel self) blocks.

End Strategy.

End SummingScheduler.

(** ** Concrete collaborators used in the examples *)

Module Examples.

(** Targets are numbered positions on a line, one degree apart; the observer
    is opaque. *)
Definition separation (_ : unit) (_ : Q) (a b : Z) : Q :=
  inject_Z (Z.abs (a - b)).

(** Constraints that return one score per sample time. *)
Definition always_observable : Constraint unit Z :=
  fun _ _ times => map (fun _ => 1) times.

Definition never_observable : Constraint unit Z :=
  fun _ _ times => map (fun _ => 0) times.

Definition negative_scores : Constraint unit Z :=
  fun _ _ times => map (fun _ => - (1)) times.

(** Observable at the start of a block that begins at the start of the
    window, not later in it: scores 1, 0, 0 there. *)
Definition observable_at_zero : Constraint unit Z :=
  fun _ _ times => map (fun t => if Qeq_bool t 0 then 1 else 0) times.

(** A constraint that returns a single score whatever the times are. *)
Definition single_score (x : Q) : Constraint unit Z :=
  fun _ _ _ => [x].

Definition hour : Q := 3600.
Definition minute : Q := 60.

Definition block_at (target : Z) (duration priority : Q)
    : ObservingBlock.t unit Z :=
  ObservingBlock.init target duration None priority.

Definition block_1h : ObservingBlock.t unit Z := block_at 0 hour 1.

(** A scheduler over a window from 0 to [window_end]. *)
Definition scheduler (window_end : Q) (cs : list (Constraint unit Z))
    (tr : option Transitioner.t) (gap : Q) : Scheduler.t unit Z :=
  Scheduler.mk cs 0 window_end tt tr gap.

Definition sched_2h (cs : list (Constraint unit Z)) (tr : option Transitioner.t)
    (gap : Q) : Scheduler.t unit Z :=
  scheduler (2 * hour) cs tr gap.

(** [Transitioner()], a transitioner that slews one degree per second, and
    one with a reconfiguration table. *)
Definition no_transitions : Transitioner.t := Transitioner.mk None None.

Definition slewing : Transitioner.t := Transitioner.mk (Some 1) None.

Definition reconfiguring : Transitioner.t :=
  Transitioner.mk None
    (Some [("filter"%string, [(("B"%string, "V"%string), 10)])]).

Definition two_blocks : list (ObservingBlock.t unit Z) :=
  [block_at 0 hour 1; block_at 10 hour 1].

Definition two_blocks_other_priorities : list (ObservingBlock.t unit Z) :=
  [block_at 0 hour 5; block_at 10 hour 7].

(** Two observable blocks ten degrees apart under a slewing transitioner. *)
Definition slew_scheduler : Scheduler.t unit Z :=
  sched_2h [always_observable] (Some slewing) (30 * minute).

Definition slew_schedule : list (Block unit Z) :=
  [OB (schedule_block (prepare slew_scheduler (block_at 0 hour 1)) 0 1800 1);
   TB (TransitionBlock.init [("slew_time"%string, 10)] (Some 1800));
   OB (schedule_block (prepare slew_scheduler (block_at 10 hour 1))
         1810 3610 1)].

(** A window of ten minutes, shorter than [gap_time]. *)
Definition short_window : Scheduler.t unit Z :=
  scheduler (10 * minute) [always_observable] None (30 * minute).

(** A block that is never observable, with a [gap_time] of zero. *)
Definition zero_gap : Scheduler.t unit Z :=
  sched_2h [never_observable] (Some no_transitions) 0.

(** A constraint that scores 1, 0, 0 at the samples of a block at the start
    of the window. *)
Definition zero_sample_scheduler : Scheduler.t unit Z :=
  sched_2h [observable_at_zero] None (30 * minute).

Definition sample_scheduler : Scheduler.t unit Z :=
  sched_2h [always_observable] None (30 * minute).

Definition veto_scheduler : Scheduler.t unit Z :=
  sched_2h [always_observable; observable_at_zero] None (30 * minute).

(** A strategy that hands back given blocks and reports them unsorted, and
    a transition block of one second at a given start time. *)
Definition unsorted_strategy (new_blocks : list (Block unit Z))
    : list (ObservingBlock.t unit Z)
      -> option (Res (list (Block unit Z) * bool)) :=
  fun _ => Some (Ok (new_blocks, false)).

Definition wait_at (label : string) (t : Q) : Block unit Z :=
  TB (TransitionBlock.init [(label, 1)] (Some t)).

End Examples.

(** ** Vocabulary of the properties *)

(** The sum and the product of a list of rationals. *)
Definition Qsum (l : list Q) : Q := fold_right Qplus 0 l.
Definition Qproduct (l : list Q) : Q := fold_right Qmult 1 l.

Module TransitionBlockOps.

(** The ways a [TransitionBlock] can be changed once [__init__] has made it:
    assigning [components] (through the setter), assigning the plain
    attributes [start_time] and [duration], and changing in place the dict
    that the [components] getter returns.  [end_time] has no setter. *)
Inductive op : Type :=
| AssignComponents (val : dict Q)
| AssignStartTime (val : option Q)
| AssignDuration (val : Q)
| SetComponent (key : string) (val : Q).

Definition apply (self : TransitionBlock.t) (o : op) : TransitionBlock.t :=
  match o with
  | AssignComponents val => TransitionBlock.components_setter self val
  | AssignStartTime val => TransitionBlock.set_start_time self val
  | AssignDuration val => TransitionBlock.set_duration self val
  | SetComponent key val => TransitionBlock.components_setitem self key val
  end.

Definition run (self : TransitionBlock.t) (ops : list op) : TransitionBlock.t :=
  fold_left apply ops self.

(** The assignments that go through the [components] setter or leave both
    [components] and [duration] alone. *)
Definition through_setter (o : op) : Prop :=
  match o with
  | AssignComponents _ | AssignStartTime _ => True
  | AssignDuration _ | SetComponent _ _ => False
  end.

End TransitionBlockOps.

Section Vocabulary.

Context {Observer Target : Type}.

Local Abbreviation OBlock := (ObservingBlock.t Observer Target).
Local Abbreviation SBlock := (Block Observer Target).
Local Abbreviation Sched := (Scheduler.t Observer Target).

(** The [end_time] of a schedule entry, when reading it succeeds. *)
Definition entry_end_time (b : SBlock) : option Q :=
  match b with
  | OB o => ObservingBlock.end_time o
  | TB t =>
      match TransitionBlock.end_time t with
      | Ok e => Some e
      | Raise _ => None
      end
  end.

(** The half-open interval of an entry with both times set. *)
Definition interval (b : SBlock) : option (Q * Q) :=
  match entry_start_time b, entry_end_time b with
  | Some s, Some e => Some (s, e)
  | _, _ => None
  end.

(** Two half-open intervals overlap when they share an instant. *)
Definition overlap (i j : Q * Q) : Prop :=
  exists x : Q, fst i <= x /\ x < snd i /\ fst j <= x /\ x < snd j.

(** [tiles t0 l t1]: the entries of [l] follow one another without a hole
    from [t0] to [t1], none ending before it starts. *)
Fixpoint tiles (t0 : Q) (l : list SBlock) (t1 : Q) : Prop :=
  match l with
  | [] => t0 == t1
  | b :: l' =>
      exists s e, interval b = Some (s, e) /\ s == t0 /\ s <= e /\ tiles e l' t1
  end.

(** A block with another priority. *)
Definition with_priority (p : Q) (b : OBlock) : OBlock :=
  ObservingBlock.mk
    (ObservingBlock.target b) (ObservingBlock.duration b)
    (ObservingBlock.constraints b) p
    (ObservingBlock.start_time b) (ObservingBlock.end_time b)
    (ObservingBlock.constraints_value b)
    (ObservingBlock._all_constraints b)
    (ObservingBlock._duration_offsets b).

Definition entry_with_priority (p : Q) (b : SBlock) : SBlock :=
  match b with
  | OB o => OB (with_priority p o)
  | TB t => TB t
  end.

Definition state_with_priority (p : Q) (st : @LoopState Observer Target)
    : @LoopState Observer Target :=
  mkLoopState (map (with_priority p) (blocks (Observer:=Observer) st))
    (map (entry_with_priority p) (new_blocks st)) (current_time st).

(** The result of a call, with a function applied to a returned schedule. *)
Definition on_schedule {A B : Type} (f : A -> B) (r : option (Res A))
    : option (Res B) :=
  match r with
  | None => None
  | Some (Raise e) => Some (Raise e)
  | Some (Ok a) => Some (Ok (f a))
  end.

(** Every transition that the configured transitioner returns has a
    non-negative duration. *)
Definition transitions_nonneg
    (separation : Observer -> Q -> Target -> Target -> Q) (self : Sched) : Prop :=
  forall (oldblock : SBlock) (b : OBlock) (t : Q) (tb : TransitionBlock.t),
    call_transitioner separation self oldblock b t = Ok (Some tb) ->
    0 <= TransitionBlock.duration tb.

(** Passes through the [while] body that suffice when every pass moves the
    clock by at least [gap_time > 0] or removes a pending block. *)
Definition fuel_bound (self : Sched) (blocks : list OBlock) : nat :=
  (List.length blocks
   + Z.to_nat (Qceiling ((Scheduler.end_time self - Scheduler.start_time self)
                         / Scheduler.gap_time self)))%nat.

(** Every observing block of the schedule built so far has both times set,
    [gap_time] apart. *)
Definition spans_gap_time (self : Sched) (b : SBlock) : Prop :=
  match b with
  | OB o =>
      exists s e, ObservingBlock.start_time o = Some s
                  /\ ObservingBlock.end_time o = Some e
                  /\ e - s == Scheduler.gap_time self
  | TB _ => True
  end.

(** Every pass starts before the end of the window, so every transition
    block (gap or transition) of the schedule starts before it. *)
Definition transition_starts_before (self : Sched) (b : SBlock) : Prop :=
  match b with
  | OB _ => True
  | TB t =>
      exists s, TransitionBlock.start_time t = Some s
                /\ s < Scheduler.end_time self
  end.

(** The passes that a state can still take: one per pending block and one
    per [gap_time] left in the window. *)
Definition remaining_passes (self : Sched)
    (st : @LoopState Observer Target) : nat :=
  (List.length (blocks (Observer:=Observer) st)
   + Z.to_nat (Qceiling ((Scheduler.end_time self - current_time st)
                         / Scheduler.gap_time self)))%nat.

(** How the loop may be left with a state: no pending block, or the current
    time at or after the end of the window. *)
Definition exit_condition (self : Sched)
    (st : @LoopState Observer Target) : Prop :=
  blocks (Observer:=Observer) st = []
  \/ Scheduler.end_time self <= current_time st.

(** An entry that lies within the window of the scheduler. *)
Definition within_window (self : Sched) (b : SBlock) : Prop :=
  exists s e, interval b = Some (s, e)
              /\ Scheduler.start_time self <= s
              /\ e <= Scheduler.end_time self.

(** A call that stops: some amount of fuel gives an outcome. *)
Definition call_stops (call : nat -> option (Res (list SBlock))) : Prop :=
  exists fuel r, call fuel = Some r.

(** The outcome of the loop of a strategy with [fuel] passes allowed: the
    loop stops, either in a state that satisfies the exit condition, whose
    [new_blocks] the call returns, or with an exception, which the call
    raises. *)
Definition loop_outcome
    (separation : Observer -> Q -> Target -> Target -> Q)
    (score : Sched -> OBlock -> list Q -> Res Q)
    (call : nat -> Sched -> list OBlock -> option (Res (list SBlock)))
    (self : Sched) (blocks : list OBlock) (fuel : nat) : Prop :=
  exists r,
    while_loop separation score fuel self (initial_state self blocks) = Some r
    /\ match r with
       | Ok st =>
           exit_condition self st
           /\ call fuel self blocks = Some (Ok (new_blocks st))
       | Raise e => call fuel self blocks = Some (Raise e)
       end.

(** *** Vocabulary of the further properties *)

(** The observing blocks of a schedule, in order. *)
Fixpoint observing_blocks (l : list SBlock) : list OBlock :=
  match l with
  | [] => []
  | OB o :: l' => o :: observing_blocks l'
  | TB _ :: l' => observing_blocks l'
  end.

(** [o] is the pending block [orig] after a commit: the same block with its
    times and its [constraints_value] assigned. *)
Definition scheduled_from (orig o : OBlock) : Prop :=
  exists s e v, o = schedule_block orig s e v.

(** The gap that a pass appends when nothing is observable. *)
Definition is_gap (self : Sched) (b : SBlock) : Prop :=
  match b with
  | OB _ => False
  | TB t =>
      TransitionBlock.components t
      = [("nothing_observable"%string, Scheduler.gap_time self)]
      /\ TransitionBlock.duration t == Scheduler.gap_time self
  end.

(** The state after a pass that inserts a gap, and after a pass that commits
    the pending block [newb] of index [idx] with transition [trans] and score
    [best]. *)
Definition gap_state (self : Sched) (st : @LoopState Observer Target)
    : @LoopState Observer Target :=
  mkLoopState (blocks st)
    (new_blocks st ++ [TB (nothing_observable self (current_time st))])
    (current_time st + Scheduler.gap_time self).

Definition commit_state (self : Sched) (st : @LoopState Observer Target)
    (idx : nat) (newb : OBlock) (trans : option TransitionBlock.t) (best : Q)
    : @LoopState Observer Target :=
  let current_time1 := after_transition (current_time st) trans in
  let current_time2 := current_time1 + Scheduler.gap_time self in
  mkLoopState (pop idx (blocks st))
    (append_transition (new_blocks st) trans
       ++ [OB (schedule_block newb current_time1 current_time2 best)])
    current_time2.

(** An observing block with a [constraints_value] other than 0. *)
Definition value_nonzero (b : SBlock) : Prop :=
  match b with
  | OB o =>
      exists v, ObservingBlock.constraints_value o = Some v /\ ~ v == 0
  | TB _ => True
  end.

(** [b] starts strictly before [b'], both start times being set. *)
Definition starts_before (b b' : SBlock) : Prop :=
  exists x y, entry_start_time b = Some x /\ entry_start_time b' = Some y
              /\ x < y.

(** The strict order of the keys of [block_time_map] under [sorted]. *)
Definition key_lt (k k' : option Q) : Prop :=
  match k, k' with
  | Some x, Some y => x < y
  | _, _ => False
  end.

(** Start times that are set and pairwise different. *)
Fixpoint distinct_start_times (l : list SBlock) : Prop :=
  match l with
  | [] => True
  | b :: l' =>
      (exists x, entry_start_time b = Some x)
      /\ Forall (fun b' => key_eqb (entry_start_time b')
                             (entry_start_time b) = false) l'
      /\ distinct_start_times l'
  end.

End Vocabulary.

(** ** Properties *)

(** *** Comparisons *)

Lemma Qlt_bool_iff (x y : Q) : Qlt_bool x y = true <-> x < y.
Proof.
  unfold Qlt_bool. rewrite negb_true_iff. split.
  - intros H. apply Qnot_le_lt. intros Hle.
    apply Qle_bool_iff in Hle. congruence.
  - intros H. destruct (Qle_bool y x) eqn:E; [|reflexivity].
    apply Qle_bool_iff in E. exfalso. apply (Qlt_not_le _ _ H E).
Qed.

Lemma Qlt_bool_false_iff (x y : Q) : Qlt_bool x y = false <-> y <= x.
Proof.
  unfold Qlt_bool. rewrite negb_false_iff. apply Qle_bool_iff.
Qed.

(** *** Lists of rationals *)

Lemma fold_left_Qplus_Qsum (l : list Q) (a : Q) :
  fold_left (fun d t => d + t) l a == a + Qsum l.
Proof.
  revert a. induction l as [|x l IH]; intros a; simpl.
  - lra.
  - rewrite IH. lra.
Qed.

Lemma Qproduct_app (l1 l2 : list Q) :
  Qproduct (l1 ++ l2) == Qproduct l1 * Qproduct l2.
Proof.
  induction l1 as [|x l1 IH]; simpl.
  - ring.
  - rewrite IH. ring.
Qed.

Lemma Qproduct_concat (ls : list (list Q)) :
  Qproduct (List.concat ls) == Qproduct (map Qproduct ls).
Proof.
  induction ls as [|l ls IH]; simpl.
  - reflexivity.
  - rewrite Qproduct_app, IH. reflexivity.
Qed.

Lemma Qproduct_zero (l : list Q) (z : Q) :
  In z l -> z == 0 -> Qproduct l == 0.
Proof.
  induction l as [|x l IH]; simpl; intros Hin Hz.
  - contradiction.
  - destruct Hin as [-> | Hin].
    + rewrite Hz. ring.
    + rewrite (IH Hin Hz). ring.
Qed.

Lemma Qsum_app (l1 l2 : list Q) : Qsum (l1 ++ l2) == Qsum l1 + Qsum l2.
Proof.
  induction l1 as [|x l1 IH]; simpl.
  - ring.
  - rewrite IH. ring.
Qed.

Lemma Qsum_concat (ls : list (list Q)) :
  Qsum (List.concat ls) == Qsum (map Qsum ls).
Proof.
  induction ls as [|l ls IH]; simpl.
  - reflexivity.
  - rewrite Qsum_app, IH. reflexivity.
Qed.

(** *** TransitionBlock *)

Lemma components_setter_duration (self : TransitionBlock.t) (val : dict Q) :
  TransitionBlock.duration (TransitionBlock.components_setter self val)
  == Qsum (values val).
Proof.
  unfold TransitionBlock.components_setter. simpl.
  rewrite fold_left_Qplus_Qsum. lra.
Qed.

Lemma init_duration (components : dict Q) (start_time : option Q) :
  TransitionBlock.duration (TransitionBlock.init components start_time)
  == Qsum (values components).
Proof. apply components_setter_duration. Qed.

Lemma ops_keep_duration (ops : list TransitionBlockOps.op)
    (self : TransitionBlock.t) :
  Forall TransitionBlockOps.through_setter ops ->
  TransitionBlock.duration self
    == Qsum (values (TransitionBlock.components self)) ->
  TransitionBlock.duration (TransitionBlockOps.run self ops)
    == Qsum (values (TransitionBlock.components (TransitionBlockOps.run self ops))).
Proof.
  revert self. induction ops as [|o ops IH]; intros self Hops Hinv.
  - exact Hinv.
  - inversion Hops as [|? ? Ho Hops']; subst.
    apply (IH _ Hops'). destruct o as [val|val|val|key val]; simpl in Ho.
    + apply components_setter_duration.
    + exact Hinv.
    + contradiction.
    + contradiction.
Qed.

Lemma end_time_is_start_plus_duration (tb : TransitionBlock.t) :
  match TransitionBlock.start_time tb with
  | Some s =>
      exists e, TransitionBlock.end_time tb = Ok e
                /\ e == s + TransitionBlock.duration tb
  | None => TransitionBlock.end_time tb = Raise TypeError
  end.
Proof.
  unfold TransitionBlock.end_time.
  destruct (TransitionBlock.start_time tb) as [s|]; [|reflexivity].
  exists (s + TransitionBlock.duration tb). split; reflexivity.
Qed.

(** C9, as the code has it.  Take a [TransitionBlock] in any state: made by
    [__init__] and then changed in any way, direct assignments to [duration]
    and in-place changes of its dict included.  Its [end_time] is
    [start_time + duration].  An assignment of [components] stores the new
    mapping and recomputes [duration] as the sum of the new values, whatever
    the state before was; right after it [end_time] is [start_time] plus that
    sum, and a later assignment of [start_time] keeps [duration].  As long as
    the block is changed through these two assignments only, [duration] is
    the sum of the values of [components]. *)
Theorem components_assignment_recomputes_duration :
  forall (components : dict Q) (start_time : option Q)
         (ops : list TransitionBlockOps.op),
    let tb :=
      TransitionBlockOps.run (TransitionBlock.init components start_time) ops in
    match TransitionBlock.start_time tb with
    | Some s =>
        exists e, TransitionBlock.end_time tb = Ok e
                  /\ e == s + TransitionBlock.duration tb
    | None => TransitionBlock.end_time tb = Raise TypeError
    end
    /\ (forall val : dict Q,
          let tb' := TransitionBlock.components_setter tb val in
          TransitionBlock.components tb' = val
          /\ TransitionBlock.duration tb' == Qsum (values val)
          /\ TransitionBlock.start_time tb' = TransitionBlock.start_time tb
          /\ match TransitionBlock.start_time tb' with
             | Some s =>
                 exists e, TransitionBlock.end_time tb' = Ok e
                           /\ e == s + Qsum (values val)
             | None => TransitionBlock.end_time tb' = Raise TypeError
             end
          /\ forall t : option Q,
               TransitionBlock.duration (TransitionBlock.set_start_time tb' t)
               == Qsum (values (TransitionBlock.components
                                  (TransitionBlock.set_start_time tb' t))))
    /\ (Forall TransitionBlockOps.through_setter ops ->
        TransitionBlock.duration tb
        == Qsum (values (TransitionBlock.components tb))).
Proof.
  intros components start_time ops tb.
  split; [apply end_time_is_start_plus_duration|]. split.
  - intros val tb'.
    pose proof (components_setter_duration tb val) as Hd. fold tb' in Hd.
    split; [reflexivity|]. split; [exact Hd|]. split; [reflexivity|]. split.
    + pose proof (end_time_is_start_plus_duration tb') as He.
      destruct (TransitionBlock.start_time tb') as [s|]; [|exact He].
      destruct He as [e [He1 He2]]. exists e. split; [exact He1|].
      rewrite He2, Hd. reflexivity.
    + intros t. exact Hd.
  - intros Hops. apply (ops_keep_duration ops _ Hops). apply init_duration.
Qed.

(** C9, against the claim as stated: after [tb.duration = 99] on a block
    whose single component is 1, [duration] is 99 and not the sum of the
    values of [components]; after [tb.components["wait"] = 5] on such a
    block, the values sum to 6 and [duration] is still 1. *)
Lemma duration_changes_without_components :
  (let tb :=
     TransitionBlockOps.run
       (TransitionBlock.init [("slew_time"%string, 1)] (Some 0))
       [TransitionBlockOps.AssignDuration 99] in
   TransitionBlock.components tb = [("slew_time"%string, 1)]
   /\ TransitionBlock.duration tb = 99
   /\ ~ TransitionBlock.duration tb
        == Qsum (values (TransitionBlock.components tb)))
  /\ (let tb :=
        TransitionBlockOps.run
          (TransitionBlock.init [("slew_time"%string, 1)] (Some 0))
          [TransitionBlockOps.SetComponent "wait" 5] in
      TransitionBlock.components tb
      = [("slew_time"%string, 1); ("wait"%string, 5)]
      /\ TransitionBlock.duration tb == 1
      /\ ~ TransitionBlock.duration tb
           == Qsum (values (TransitionBlock.components tb))).
Proof.
  split; simpl.
  - split; [reflexivity|]. split; [reflexivity|]. discriminate.
  - split; [reflexivity|]. split; [reflexivity|]. discriminate.
Qed.

(** C9, on an input: a block made with one component, then [start_time]
    and [components] assigned. *)
Lemma components_assignment_recomputes_duration_witness :
  let ops :=
    [TransitionBlockOps.AssignStartTime (Some 10);
     TransitionBlockOps.AssignComponents
       [("slew_time"%string, 2); ("filter"%string, 3)]] in
  let tb :=
    TransitionBlockOps.run
      (TransitionBlock.init [("slew_time"%string, 1)] (Some 0)) ops in
  Forall TransitionBlockOps.through_setter ops
  /\ TransitionBlock.duration tb
     == Qsum (values (TransitionBlock.components tb)).
Proof.
  intros ops tb.
  assert (Hops : Forall TransitionBlockOps.through_setter ops)
    by (repeat constructor).
  split; [exact Hops|].
  exact (proj2 (proj2 (components_assignment_recomputes_duration
                         [("slew_time"%string, 1)] (Some 0) ops)) Hops).
Defined.

(** *** Transitioner *)

Section TransitionerFacts.

Context {Observer Target : Type}.
Variable separation : Observer -> Q -> Target -> Target -> Q.

Lemma transitioner_unset_returns_none
    (oldblock : option (Block Observer Target))
    (newblock : ObservingBlock.t Observer Target) (t : Q) (obs : Observer) :
  Transitioner.call separation (Transitioner.mk None None) oldblock newblock t obs
  = Ok None.
Proof. reflexivity. Qed.

Lemma transitioner_start_time (tr : Transitioner.t)
    (oldblock : option (Block Observer Target))
    (newblock : ObservingBlock.t Observer Target) (t : Q) (obs : Observer)
    (tb : TransitionBlock.t) :
  Transitioner.call separation tr oldblock newblock t obs = Ok (Some tb) ->
  TransitionBlock.start_time tb = Some t.
Proof.
  unfold Transitioner.call.
  destruct (Transitioner.instrument_reconfig_times tr); simpl; [discriminate|].
  match goal with |- context [dict_truth ?c] => destruct (dict_truth c) end;
    intros H; inversion H; reflexivity.
Qed.

(** C2.  With an instrument-reconfiguration table configured, every call
    raises [AttributeError], whatever the slew rate, the table and the blocks
    are: no [TransitionBlock] and no reconfiguration component is produced.
    With the slew rate and the table both unset the call returns [None]. *)
Theorem transitioner_with_reconfig_table_raises :
  forall (slew_rate : option Q)
         (table : dict (list ((string * string) * Q)))
         (oldblock : option (Block Observer Target))
         (newblock : ObservingBlock.t Observer Target) (t : Q) (obs : Observer),
    Transitioner.call separation (Transitioner.mk slew_rate (Some table))
      oldblock newblock t obs = Raise AttributeError
    /\ Transitioner.call separation (Transitioner.mk None None)
         oldblock newblock t obs = Ok None.
Proof.
  intros. split; reflexivity.
Qed.

End TransitionerFacts.

(** *** The scheduling loop, for any scoring *)

Lemma for_each_nth {A B : Type} (body : A -> Res B) (l : list A) (r : list B)
    (i : nat) (a : A) :
  for_each body l = Ok r -> nth_error l i = Some a ->
  exists b, nth_error r i = Some b /\ body a = Ok b.
Proof.
  revert r i. induction l as [|x l IH]; intros r i Hfor Hnth.
  - destruct i; discriminate.
  - simpl in Hfor. destruct (body x) as [bx|] eqn:Ex; [|discriminate].
    simpl in Hfor. destruct (for_each body l) as [bs|] eqn:El; [|discriminate].
    simpl in Hfor. inversion Hfor; subst r. destruct i as [|i].
    + inversion Hnth; subst. exists bx. split; [reflexivity|exact Ex].
    + simpl in Hnth. simpl. apply (IH bs i eq_refl Hnth).
Qed.

Lemma for_each_length {A B : Type} (body : A -> Res B) (l : list A) (r : list B) :
  for_each body l = Ok r -> List.length r = List.length l.
Proof.
  revert r. induction l as [|x l IH]; intros r Hfor; simpl in Hfor.
  - inversion Hfor. reflexivity.
  - destruct (body x); [|discriminate]. simpl in Hfor.
    destruct (for_each body l) as [bs|]; [|discriminate].
    inversion Hfor. simpl. f_equal. apply IH. reflexivity.
Qed.

Lemma for_each_total {A B : Type} (body : A -> Res B) (l : list A) :
  (forall a, In a l -> exists b, body a = Ok b) ->
  exists r, for_each body l = Ok r.
Proof.
  induction l as [|x l IH]; intros Hall; simpl.
  - eexists. reflexivity.
  - destruct (Hall x (or_introl eq_refl)) as [b ->]. simpl.
    destruct IH as [r ->].
    + intros a Ha. apply Hall. right. exact Ha.
    + simpl. eexists. reflexivity.
Qed.

Lemma pop_length {A : Type} (i : nat) (l : list A) (a : A) :
  nth_error l i = Some a -> S (List.length (pop i l)) = List.length l.
Proof.
  revert i. induction l as [|x l IH]; intros i Hnth.
  - destruct i; discriminate.
  - destruct i as [|i]; simpl.
    + unfold pop. simpl. reflexivity.
    + simpl in Hnth. unfold pop in *. simpl. f_equal. apply IH. exact Hnth.
Qed.

Lemma pop_In {A : Type} (i : nat) (l : list A) (a : A) :
  In a (pop i l) -> In a l.
Proof.
  unfold pop. intros H. apply in_app_or in H. destruct H as [H|H].
  - rewrite <- (firstn_skipn i l). apply in_or_app. left. exact H.
  - rewrite <- (firstn_skipn (S i) l). apply in_or_app. right. exact H.
Qed.

Section LoopFacts.

Context {Observer Target : Type}.
Variable separation : Observer -> Q -> Target -> Target -> Q.
Variable score :
  Scheduler.t Observer Target -> ObservingBlock.t Observer Target ->
  list Q -> Res Q.

Local Abbreviation OBlock := (ObservingBlock.t Observer Target).
Local Abbreviation SBlock := (Block Observer Target).
Local Abbreviation Sched := (Scheduler.t Observer Target).
Local Abbreviation LState := (@LoopState Observer Target).

Lemma evaluate_block_transition (self : Sched) (st : LState) (b : OBlock)
    (r : option TransitionBlock.t * Q) :
  evaluate_block separation score self st b = Ok r ->
  block_transition separation self (new_blocks st) b (current_time st)
  = Ok (fst r)
  /\ score self b (sample_times (current_time st) (fst r) b) = Ok (snd r).
Proof.
  unfold evaluate_block.
  destruct (block_transition separation self (new_blocks st) b (current_time st))
    as [trans|]; simpl; [|discriminate].
  destruct (score self b (sample_times (current_time st) trans b)) as [s|] eqn:Es;
    simpl; [|discriminate].
  intros H. inversion H; subst r. simpl. split; [reflexivity|exact Es].
Qed.

(** A pass through the body that does not raise is a [step]. *)
Lemma loop_body_step (self : Sched) (st st' : LState) :
  loop_body separation score self st = Ok st' -> step separation self st st'.
Proof.
  unfold loop_body.
  destruct (for_each (evaluate_block separation score self st) (blocks st))
    as [evaluated|] eqn:Efor; simpl; [|discriminate].
  set (idx := np.argmax (map snd evaluated)).
  destruct (nth_error (map snd evaluated) idx) as [best|] eqn:Ebest;
    [|discriminate].
  destruct (nth_error (map fst evaluated) idx) as [trans|] eqn:Etrans;
    [|discriminate].
  destruct (nth_error (blocks st) idx) as [newb|] eqn:Enewb; [|discriminate].
  destruct (Qeq_bool best 0).
  - intros H. inversion H. apply step_gap.
  - intros H. inversion H.
    destruct (for_each_nth _ _ _ _ _ Efor Enewb) as [r [Hr Hev]].
    apply evaluate_block_transition in Hev. destruct Hev as [Hev _].
    rewrite nth_error_map, Hr in Etrans. simpl in Etrans.
    inversion Etrans; subst trans.
    apply (step_commit separation self st idx newb (fst r) best Enewb Hev).
Qed.

(** What holds at the start and is kept by every [step] taken while the loop
    condition is true holds when the loop is left, and the condition is then
    false. *)
Lemma while_loop_invariant (P : LState -> Prop) (self : Sched) :
  (forall s s', P s -> loop_cond self s = true ->
                step separation self s s' -> P s') ->
  forall (fuel : nat) (st st' : LState),
    P st -> while_loop separation score fuel self st = Some (Ok st') ->
    P st' /\ loop_cond self st' = false.
Proof.
  intros Hstep fuel. induction fuel as [|fuel IH]; intros st st' HP Hrun;
    simpl in Hrun; destruct (loop_cond self st) eqn:Ec.
  - discriminate.
  - inversion Hrun; subst st'. split; assumption.
  - destruct (loop_body separation score self st) as [st1|] eqn:Eb;
      [|discriminate].
    apply (IH st1 st'); [|exact Hrun].
    apply (Hstep st st1 HP Ec). apply loop_body_step. exact Eb.
  - inversion Hrun; subst st'. split; assumption.
Qed.

(** The transition that a step commits starts at the current time. *)
Lemma block_transition_start (self : Sched) (nb : list SBlock) (b : OBlock)
    (t : Q) (tb : TransitionBlock.t) :
  block_transition separation self nb b t = Ok (Some tb) ->
  TransitionBlock.start_time tb = Some t
  /\ exists prev, call_transitioner separation self prev b t = Ok (Some tb).
Proof.
  unfold block_transition. destruct (last_block nb) as [prev|]; [|discriminate].
  intros H. split; [|exists prev; exact H].
  unfold call_transitioner in H.
  destruct (Scheduler.transitioner self) as [tr|]; [|discriminate].
  apply (transitioner_start_time separation _ _ _ _ _ _ H).
Qed.

End LoopFacts.

(** *** Contiguous schedules *)

Section Tiles.

Context {Observer Target : Type}.

Local Abbreviation SBlock := (Block Observer Target).

Lemma tiles_app (l : list SBlock) (t0 t1 t2 : Q) (b : SBlock) (s e : Q) :
  tiles t0 l t1 -> interval b = Some (s, e) -> s == t1 -> s <= e -> e == t2 ->
  tiles t0 (l ++ [b]) t2.
Proof.
  revert t0. induction l as [|x l IH]; intros t0 Ht Hb Hs Hse He; simpl in *.
  - exists s, e. repeat split; try assumption. lra.
  - destruct Ht as [sx [ex [Hx [Hsx [Hle Ht]]]]].
    exists sx, ex. repeat split; try assumption.
    apply IH; assumption.
Qed.

Lemma tiles_bounds (l : list SBlock) (t0 t1 : Q) :
  tiles t0 l t1 ->
  t0 <= t1
  /\ forall b, In b l ->
       exists s e, interval b = Some (s, e) /\ t0 <= s /\ s <= e /\ e <= t1.
Proof.
  revert t0. induction l as [|x l IH]; intros t0 Ht; simpl in Ht.
  - split; [lra|]. intros b [].
  - destruct Ht as [sx [ex [Hx [Hsx [Hle Ht]]]]].
    destruct (IH ex Ht) as [Hex Hall]. split; [lra|].
    intros b [<- | Hin].
    + exists sx, ex. repeat split; try assumption; lra.
    + destruct (Hall b Hin) as [s [e [Hb [H1 [H2 H3]]]]].
      exists s, e. repeat split; try assumption; lra.
Qed.

Lemma tiles_ordered (l : list SBlock) (t0 t1 : Q) :
  tiles t0 l t1 ->
  forall (i j : nat) (bi bj : SBlock),
    (i < j)%nat -> nth_error l i = Some bi -> nth_error l j = Some bj ->
    exists si ei sj ej,
      interval bi = Some (si, ei) /\ interval bj = Some (sj, ej)
      /\ si <= sj /\ ei <= sj.
Proof.
  revert t0. induction l as [|x l IH]; intros t0 Ht i j bi bj Hij Hi Hj.
  - destruct i; discriminate.
  - simpl in Ht. destruct Ht as [sx [ex [Hx [Hsx [Hle Ht]]]]].
    destruct j as [|j]; [lia|]. simpl in Hj. destruct i as [|i].
    + simpl in Hi. inversion Hi; subst bi.
      destruct (tiles_bounds l ex t1 Ht) as [_ Hall].
      destruct (Hall bj (nth_error_In _ _ Hj)) as [s [e [Hb [H1 [H2 H3]]]]].
      exists sx, ex, s, e. repeat split; try assumption; lra.
    + simpl in Hi. apply (IH ex Ht i j bi bj); [lia|assumption|assumption].
Qed.

Lemma ordered_no_overlap (si ei sj ej : Q) :
  ei <= sj -> ~ overlap (si, ei) (sj, ej).
Proof.
  intros Hle [x [H1 [H2 [H3 H4]]]]. simpl in *. lra.
Qed.

End Tiles.

(** *** Invariants of the scheduling loop *)

Section LoopInvariants.

Context {Observer Target : Type}.
Variable separation : Observer -> Q -> Target -> Target -> Q.

Local Abbreviation OBlock := (ObservingBlock.t Observer Target).
Local Abbreviation SBlock := (Block Observer Target).
Local Abbreviation Sched := (Scheduler.t Observer Target).
Local Abbreviation LState := (@LoopState Observer Target).

Lemma interval_nothing_observable (self : Sched) (t : Q) :
  interval (TB (nothing_observable self t) : SBlock)
  = Some (t, t + (0 + Scheduler.gap_time self)).
Proof. reflexivity. Qed.

Lemma interval_transition (tb : TransitionBlock.t) (t : Q) :
  TransitionBlock.start_time tb = Some t ->
  interval (TB tb : SBlock) = Some (t, t + TransitionBlock.duration tb).
Proof.
  intros H. unfold interval, entry_end_time, TransitionBlock.end_time. simpl.
  rewrite H. reflexivity.
Qed.

(** The schedule built so far tiles the time from the start of the window to
    the current time. *)
Lemma step_keeps_tiles (self : Sched) (s s' : LState) :
  0 <= Scheduler.gap_time self ->
  transitions_nonneg separation self ->
  tiles (Scheduler.start_time self) (new_blocks s) (current_time s) ->
  step separation self s s' ->
  tiles (Scheduler.start_time self) (new_blocks s') (current_time s').
Proof.
  intros Hgap Htr Ht Hstep.
  destruct Hstep as [|idx newb trans best Hnth Hbt t1 t2]; simpl.
  - eapply tiles_app; [exact Ht|apply interval_nothing_observable| | |]; lra.
  - assert (Ht1 : tiles (Scheduler.start_time self)
                    (append_transition (new_blocks s) trans) t1
                  /\ current_time s <= t1).
    { subst t1. destruct trans as [tb|]; simpl.
      - destruct (block_transition_start _ _ _ _ _ _ Hbt) as [Hs [prev Hc]].
        pose proof (Htr prev newb (current_time s) tb Hc) as Hd.
        split; [|lra].
        eapply tiles_app; [exact Ht|apply interval_transition; exact Hs| | |];
          lra.
      - split; [exact Ht|lra]. }
    destruct Ht1 as [Ht1 _].
    eapply tiles_app; [exact Ht1|reflexivity| | |]; subst t2; lra.
Qed.

Lemma step_keeps_spans (self : Sched) (s s' : LState) :
  Forall (spans_gap_time self) (new_blocks s) ->
  step separation self s s' ->
  Forall (spans_gap_time self) (new_blocks s').
Proof.
  intros Hall Hstep.
  destruct Hstep as [|idx newb trans best Hnth Hbt t1 t2]; simpl.
  - apply Forall_app. split; [exact Hall|]. constructor; [exact I|constructor].
  - apply Forall_app. split.
    + destruct trans as [tb|]; simpl; [|exact Hall].
      apply Forall_app. split; [exact Hall|]. constructor; [exact I|constructor].
    + constructor; [|constructor]. simpl. exists t1, t2.
      repeat split. subst t2. lra.
Qed.

Lemma step_keeps_starts_before (self : Sched) (s s' : LState) :
  Forall (transition_starts_before self) (new_blocks s) ->
  loop_cond self s = true ->
  step separation self s s' ->
  Forall (transition_starts_before self) (new_blocks s').
Proof.
  intros Hall Hc Hstep.
  unfold loop_cond in Hc. apply andb_true_iff in Hc. destruct Hc as [_ Hc].
  apply Qlt_bool_iff in Hc.
  destruct Hstep as [|idx newb trans best Hnth Hbt t1 t2]; simpl.
  - apply Forall_app. split; [exact Hall|]. constructor; [|constructor].
    simpl. exists (current_time s). split; [reflexivity|exact Hc].
  - apply Forall_app. split; [|constructor; [exact I|constructor]].
    destruct trans as [tb|]; simpl; [|exact Hall].
    apply Forall_app. split; [exact Hall|]. constructor; [|constructor].
    destruct (block_transition_start _ _ _ _ _ _ Hbt) as [Hs _].
    simpl. exists (current_time s). split; [exact Hs|exact Hc].
Qed.

(** The pending blocks stay among the prepared input blocks. *)
Lemma step_keeps_pending (self : Sched) (l : list OBlock) (s s' : LState) :
  incl (blocks s) l -> step separation self s s' -> incl (blocks s') l.
Proof.
  intros Hincl Hstep.
  destruct Hstep as [|idx newb trans best Hnth Hbt t1 t2]; simpl.
  - exact Hincl.
  - intros b Hb. apply Hincl. apply (pop_In _ _ _ Hb).
Qed.

End LoopInvariants.

(** *** Returned schedules *)

Section Returned.

Context {Observer Target : Type}.
Variable separation : Observer -> Q -> Target -> Target -> Q.

Local Abbreviation OBlock := (ObservingBlock.t Observer Target).
Local Abbreviation SBlock := (Block Observer Target).
Local Abbreviation Sched := (Scheduler.t Observer Target).
Local Abbreviation LState := (@LoopState Observer Target).

(** A schedule that the driver returns for a strategy built on the shared
    loop is the [new_blocks] of the state in which the loop stopped. *)
Lemma call_returns_final_state
    (score : Sched -> OBlock -> list Q -> Res Q)
    (fuel : nat) (self : Sched) (blocks : list OBlock) (sched : list SBlock) :
  Scheduler_call (make_schedule separation score fuel self) blocks
  = Some (Ok sched) ->
  exists st : LState,
    while_loop separation score fuel self (initial_state self blocks)
    = Some (Ok st)
    /\ sched = new_blocks st.
Proof.
  unfold Scheduler_call, make_schedule. rewrite map_id.
  destruct (while_loop separation score fuel self (initial_state self blocks))
    as [[st|e]|]; simpl; try discriminate.
  intros H. inversion H. exists st. split; reflexivity.
Qed.

Lemma strategies_share_loop (fuel : nat) (self : Sched)
    (blocks : list OBlock) (sched : list SBlock) :
  SequentialScheduler.call separation fuel self blocks = Some (Ok sched)
  \/ SummingScheduler.call separation fuel self blocks = Some (Ok sched) ->
  exists score,
    Scheduler_call (make_schedule separation score fuel self) blocks
    = Some (Ok sched).
Proof.
  intros [H|H].
  - exists SequentialScheduler.score. exact H.
  - exists SummingScheduler.score. exact H.
Qed.

Lemma returned_schedule_tiles
    (score : Sched -> OBlock -> list Q -> Res Q)
    (fuel : nat) (self : Sched) (blocks : list OBlock) (sched : list SBlock) :
  0 <= Scheduler.gap_time self ->
  transitions_nonneg separation self ->
  Scheduler_call (make_schedule separation score fuel self) blocks
  = Some (Ok sched) ->
  exists t1, tiles (Scheduler.start_time self) sched t1.
Proof.
  intros Hgap Htr Hcall.
  destruct (call_returns_final_state _ _ _ _ _ Hcall) as [st [Hrun ->]].
  exists (current_time st).
  refine (proj1 (while_loop_invariant separation score
                   (fun s => tiles (Scheduler.start_time self) (new_blocks s)
                               (current_time s))
                   self _ fuel _ st _ Hrun)).
  - intros s s' Hs _ Hstep. apply (step_keeps_tiles separation self s s'); assumption.
  - simpl. reflexivity.
Qed.

Lemma returned_schedule_spans
    (score : Sched -> OBlock -> list Q -> Res Q)
    (fuel : nat) (self : Sched) (blocks : list OBlock) (sched : list SBlock) :
  Scheduler_call (make_schedule separation score fuel self) blocks
  = Some (Ok sched) ->
  Forall (spans_gap_time self) sched.
Proof.
  intros Hcall.
  destruct (call_returns_final_state _ _ _ _ _ Hcall) as [st [Hrun ->]].
  refine (proj1 (while_loop_invariant separation score
                   (fun s => Forall (spans_gap_time self) (new_blocks s))
                   self _ fuel _ st _ Hrun)).
  - intros s s' Hs _ Hstep. apply (step_keeps_spans separation self s s'); assumption.
  - constructor.
Qed.

Lemma returned_schedule_starts_before
    (score : Sched -> OBlock -> list Q -> Res Q)
    (fuel : nat) (self : Sched) (blocks : list OBlock) (sched : list SBlock) :
  Scheduler_call (make_schedule separation score fuel self) blocks
  = Some (Ok sched) ->
  Forall (transition_starts_before self) sched.
Proof.
  intros Hcall.
  destruct (call_returns_final_state _ _ _ _ _ Hcall) as [st [Hrun ->]].
  refine (proj1 (while_loop_invariant separation score
                   (fun s => Forall (transition_starts_before self)
                               (new_blocks s))
                   self _ fuel _ st _ Hrun)).
  - intros s s' Hs Hc Hstep.
    apply (step_keeps_starts_before separation self s s'); assumption.
  - constructor.
Qed.

(** In every schedule either strategy returns, every observing block has
    both times set and [end_time - start_time] is the scheduler's
    [gap_time]. *)
Lemma scheduled_blocks_span_gap_time (fuel : nat) (self : Sched)
    (blocks : list OBlock) (sched : list SBlock) :
  SequentialScheduler.call separation fuel self blocks = Some (Ok sched)
  \/ SummingScheduler.call separation fuel self blocks = Some (Ok sched) ->
  Forall (spans_gap_time self) sched.
Proof.
  intros H. destruct (strategies_share_loop _ _ _ _ H) as [score Hcall].
  apply (returned_schedule_spans score fuel self blocks sched Hcall).
Qed.

(** C5.  With [gap_time] and every transition duration non-negative, a
    schedule returned by a call of either strategy is in nondecreasing order
    of [start_time], and the intervals from [start_time] to [end_time] of two
    of its entries never overlap: of two entries, the earlier one in the list
    has both times set, starts no later than the other and ends no later than
    the other starts. *)
Theorem returned_schedule_sorted_disjoint :
  forall (fuel : nat) (self : Sched) (blocks : list OBlock)
         (sched : list SBlock),
    0 <= Scheduler.gap_time self ->
    transitions_nonneg separation self ->
    SequentialScheduler.call separation fuel self blocks = Some (Ok sched)
    \/ SummingScheduler.call separation fuel self blocks = Some (Ok sched) ->
    forall (i j : nat) (bi bj : SBlock),
      (i < j)%nat -> nth_error sched i = Some bi -> nth_error sched j = Some bj ->
      exists ii ij,
        interval bi = Some ii /\ interval bj = Some ij
        /\ fst ii <= fst ij /\ snd ii <= fst ij /\ ~ overlap ii ij.
Proof.
  intros fuel self blocks sched Hgap Htr H i j bi bj Hij Hi Hj.
  destruct (strategies_share_loop _ _ _ _ H) as [score Hcall].
  destruct (returned_schedule_tiles score fuel self blocks sched Hgap Htr Hcall)
    as [t1 Ht].
  destruct (tiles_ordered sched _ _ Ht i j bi bj Hij Hi Hj)
    as [si [ei [sj [ej [Hbi [Hbj [Hs He]]]]]]].
  exists (si, ei), (sj, ej). simpl.
  repeat split; try assumption. apply ordered_no_overlap. exact He.
Qed.

(** C6, as the code has it.  With [gap_time] and every transition duration
    non-negative, every entry of a schedule returned by either strategy has
    both times set and starts at or after the start of the window, and every
    transition block in it (gap or transition) starts before the end of the
    window.  Nothing bounds [end_time] by the end of the window. *)
Theorem returned_entries_start_in_window :
  forall (fuel : nat) (self : Sched) (blocks : list OBlock)
         (sched : list SBlock),
    0 <= Scheduler.gap_time self ->
    transitions_nonneg separation self ->
    SequentialScheduler.call separation fuel self blocks = Some (Ok sched)
    \/ SummingScheduler.call separation fuel self blocks = Some (Ok sched) ->
    forall b : SBlock, In b sched ->
      (exists s e, interval b = Some (s, e)
                   /\ Scheduler.start_time self <= s /\ s <= e)
      /\ transition_starts_before self b.
Proof.
  intros fuel self blocks sched Hgap Htr H b Hb.
  destruct (strategies_share_loop _ _ _ _ H) as [score Hcall].
  split.
  - destruct (returned_schedule_tiles score fuel self blocks sched Hgap Htr Hcall)
      as [t1 Ht].
    destruct (tiles_bounds sched _ _ Ht) as [_ Hall].
    destruct (Hall b Hb) as [s [e [Hi [H1 [H2 _]]]]].
    exists s, e. repeat split; assumption.
  - pose proof (returned_schedule_starts_before score fuel self blocks sched Hcall)
      as Hall.
    rewrite Forall_forall in Hall. apply Hall. exact Hb.
Qed.

End Returned.

(** *** Termination *)

Lemma ceiling_decreases (x x' : Q) :
  0 < x -> x' <= x - 1 ->
  (Z.to_nat (Qceiling x') < Z.to_nat (Qceiling x))%nat.
Proof.
  intros Hx Hx'.
  pose proof (Qceiling_lt x') as H1.
  pose proof (Qle_ceiling x) as H2.
  assert (E : inject_Z (Qceiling x - 1) == inject_Z (Qceiling x) - 1).
  { unfold Z.sub. rewrite inject_Z_plus, inject_Z_opp. reflexivity. }
  assert (Ha : (Qceiling x' - 1 < Qceiling x - 1)%Z).
  { rewrite Zlt_Qlt. lra. }
  assert (Hb : (0 < Qceiling x)%Z).
  { rewrite Zlt_Qlt. change (inject_Z 0) with 0. lra. }
  lia.
Qed.

Lemma window_shrinks (e t t' g : Q) :
  0 < g -> t < e -> t + g <= t' ->
  (Z.to_nat (Qceiling ((e - t') / g)) < Z.to_nat (Qceiling ((e - t) / g)))%nat.
Proof.
  intros Hg Hlt Hle. apply ceiling_decreases.
  - apply Qlt_shift_div_l; [exact Hg|]. lra.
  - apply Qle_shift_div_r; [exact Hg|].
    assert (E : ((e - t) / g - 1) * g == e - t - g) by (field; lra).
    rewrite E. lra.
Qed.

Section Termination.

Context {Observer Target : Type}.
Variable separation : Observer -> Q -> Target -> Target -> Q.
Variable score :
  Scheduler.t Observer Target -> ObservingBlock.t Observer Target ->
  list Q -> Res Q.

Local Abbreviation OBlock := (ObservingBlock.t Observer Target).
Local Abbreviation SBlock := (Block Observer Target).
Local Abbreviation Sched := (Scheduler.t Observer Target).
Local Abbreviation LState := (@LoopState Observer Target).

Lemma loop_cond_true (self : Sched) (st : LState) :
  loop_cond self st = true ->
  (0 < List.length (blocks st))%nat
  /\ current_time st < Scheduler.end_time self.
Proof.
  unfold loop_cond. intros H. apply andb_true_iff in H. destruct H as [H1 H2].
  split; [apply Nat.ltb_lt; exact H1|apply Qlt_bool_iff; exact H2].
Qed.

Lemma loop_cond_false (self : Sched) (st : LState) :
  loop_cond self st = false -> exit_condition self st.
Proof.
  unfold loop_cond, exit_condition. intros H.
  apply andb_false_iff in H. destruct H as [H|H].
  - left. apply Nat.ltb_ge in H. destruct (blocks st); [reflexivity|].
    simpl in H. lia.
  - right. apply Qlt_bool_false_iff. exact H.
Qed.

Lemma step_decreases (self : Sched) (s s' : LState) :
  0 < Scheduler.gap_time self ->
  transitions_nonneg separation self ->
  loop_cond self s = true ->
  step separation self s s' ->
  (remaining_passes self s' < remaining_passes self s)%nat.
Proof.
  intros Hgap Htr Hc Hstep. apply loop_cond_true in Hc. destruct Hc as [_ Hlt].
  unfold remaining_passes.
  destruct Hstep as [|idx newb trans best Hnth Hbt t1 t2]; simpl.
  - apply Nat.add_lt_mono_l. apply window_shrinks; [exact Hgap|exact Hlt|lra].
  - pose proof (pop_length idx (blocks s) newb Hnth) as Hlen.
    assert (Ht1 : current_time s <= t1).
    { subst t1. destruct trans as [tb|]; simpl; [|lra].
      destruct (block_transition_start _ _ _ _ _ _ Hbt) as [_ [prev Hcall]].
      pose proof (Htr prev newb (current_time s) tb Hcall). lra. }
    assert (Hw : (Z.to_nat (Qceiling ((Scheduler.end_time self - t2)
                                       / Scheduler.gap_time self))
                  < Z.to_nat (Qceiling ((Scheduler.end_time self - current_time s)
                                         / Scheduler.gap_time self)))%nat).
    { apply window_shrinks; [exact Hgap|exact Hlt|subst t2; lra]. }
    lia.
Qed.

(** With [gap_time > 0] and non-negative transitions, fuel for the remaining
    passes is enough: the loop stops, with a state or with an exception. *)
Lemma while_loop_stops (self : Sched) :
  0 < Scheduler.gap_time self ->
  transitions_nonneg separation self ->
  forall (fuel : nat) (st : LState),
    (remaining_passes self st <= fuel)%nat ->
    exists r, while_loop separation score fuel self st = Some r.
Proof.
  intros Hgap Htr fuel. induction fuel as [|fuel IH]; intros st Hm; simpl;
    destruct (loop_cond self st) eqn:Ec; try (eexists; reflexivity).
  - apply loop_cond_true in Ec. unfold remaining_passes in Hm. lia.
  - destruct (loop_body separation score self st) as [st1|e] eqn:Eb;
      [|eexists; reflexivity].
    apply IH. apply loop_body_step in Eb.
    pose proof (step_decreases self st st1 Hgap Htr Ec Eb). lia.
Qed.

Lemma while_loop_exit (self : Sched) (fuel : nat) (st st' : LState) :
  while_loop separation score fuel self st = Some (Ok st') ->
  exit_condition self st'.
Proof.
  intros Hrun. apply loop_cond_false.
  apply (while_loop_invariant separation score (fun _ => True) self
           (fun _ _ _ _ _ => I) fuel st st' I Hrun).
Qed.

Lemma make_schedule_stops (self : Sched) (blocks : list OBlock) (fuel : nat) :
  0 < Scheduler.gap_time self ->
  transitions_nonneg separation self ->
  (fuel_bound self blocks <= fuel)%nat ->
  loop_outcome separation score
    (fun fuel self blocks =>
       Scheduler_call (make_schedule separation score fuel self) blocks)
    self blocks fuel.
Proof.
  intros Hgap Htr Hfuel.
  destruct (while_loop_stops self Hgap Htr fuel (initial_state self blocks))
    as [r Hr].
  - unfold remaining_passes, fuel_bound in *. simpl. rewrite length_map.
    exact Hfuel.
  - exists r. split; [exact Hr|].
    unfold Scheduler_call, make_schedule. rewrite map_id, Hr.
    destruct r as [st|e]; simpl; [|reflexivity].
    split; [|reflexivity]. apply (while_loop_exit self fuel _ st Hr).
Qed.

End Termination.

Section TerminationOfStrategies.

Context {Observer Target : Type}.
Variable separation : Observer -> Q -> Target -> Target -> Q.

(** C7, as the code has it.  With [gap_time > 0] and every transition
    duration non-negative, the scheduling loop of either strategy stops within
    [fuel_bound] passes, for every block list: the call returns a schedule or
    raises.  When it returns, the loop was left with no pending block or with
    the current time at or after the end of the window. *)
Theorem scheduling_loop_stops :
  forall (self : Scheduler.t Observer Target)
         (blocks : list (ObservingBlock.t Observer Target)) (fuel : nat),
    0 < Scheduler.gap_time self ->
    transitions_nonneg separation self ->
    (fuel_bound self blocks <= fuel)%nat ->
    loop_outcome separation SequentialScheduler.score
      (SequentialScheduler.call separation) self blocks fuel
    /\ loop_outcome separation SummingScheduler.score
         (SummingScheduler.call separation) self blocks fuel.
Proof.
  intros self blocks fuel Hgap Htr Hfuel. split.
  - apply (make_schedule_stops separation SequentialScheduler.score
             self blocks fuel Hgap Htr Hfuel).
  - apply (make_schedule_stops separation SummingScheduler.score
             self blocks fuel Hgap Htr Hfuel).
Qed.

End TerminationOfStrategies.

(** *** Scores *)

Section Scores.

Context {Observer Target : Type}.
Variable separation : Observer -> Q -> Target -> Target -> Q.

Local Abbreviation OBlock := (ObservingBlock.t Observer Target).
Local Abbreviation SBlock := (Block Observer Target).
Local Abbreviation Sched := (Scheduler.t Observer Target).
Local Abbreviation LState := (@LoopState Observer Target).

Lemma prepare_all_constraints (self : Sched) (b0 : OBlock) :
  ObservingBlock._all_constraints (prepare self b0)
  = Scheduler.constraints self
    ++ match ObservingBlock.constraints b0 with
       | None => []
       | Some cs => cs
       end.
Proof.
  unfold prepare. simpl. destruct (ObservingBlock.constraints b0).
  - reflexivity.
  - rewrite app_nil_r. reflexivity.
Qed.

(** C3.  In a pass of [SequentialScheduler], for a pending block whose
    transition is computed, the score is the product, over the effective
    constraints of the block (those of the scheduler, then its own) and over
    the scores each returns for the three sample times (current time plus
    transition time plus 0, half the duration and the duration), of all these
    scores; a score of 0 from one constraint at one sample makes it 0. *)
Theorem sequential_score_is_product :
  forall (self : Sched) (st : LState) (b0 : OBlock)
         (trans : option TransitionBlock.t),
    let b := prepare self b0 in
    block_transition separation self (new_blocks st) b (current_time st)
    = Ok trans ->
    let effective :=
      Scheduler.constraints self
      ++ match ObservingBlock.constraints b0 with
         | None => []
         | Some cs => cs
         end in
    let start := current_time st + transition_time trans in
    let times :=
      [start + 0; start + ObservingBlock.duration b0 / 2;
       start + ObservingBlock.duration b0] in
    let scores (c : Constraint Observer Target) :=
      c (Scheduler.observer self) [ObservingBlock.target b0] times in
    exists s,
      evaluate_block separation SequentialScheduler.score self st b
      = Ok (trans, s)
      /\ s == Qproduct (map (fun c => Qproduct (scores c)) effective)
      /\ (forall c z, In c effective -> In z (scores c) -> z == 0 -> s == 0).
Proof.
  intros self st b0 trans b Hbt effective start times scores.
  exists (np.prod (SequentialScheduler.constraint_res self b
                     (sample_times (current_time st) trans b))).
  assert (Hs : np.prod (SequentialScheduler.constraint_res self b
                          (sample_times (current_time st) trans b))
               == Qproduct (map (fun c => Qproduct (scores c)) effective)).
  { unfold np.prod, SequentialScheduler.constraint_res.
    fold (Qproduct (List.concat
      (map (fun constraint =>
              constraint (Scheduler.observer self) [ObservingBlock.target b]
                (sample_times (current_time st) trans b))
         (ObservingBlock._all_constraints b)))).
    rewrite Qproduct_concat, map_map. unfold b at 3.
    rewrite prepare_all_constraints. reflexivity. }
  split; [|split].
  - unfold evaluate_block. rewrite Hbt. reflexivity.
  - exact Hs.
  - intros c z Hc Hz Hz0. rewrite Hs.
    apply (Qproduct_zero _ (Qproduct (scores c))).
    + apply in_map_iff. exists c. split; [reflexivity|exact Hc].
    + apply (Qproduct_zero _ z Hz Hz0).
Qed.

(** The constraint loop of [SummingScheduler] when it does not raise. *)
Lemma constraint_loop_ok (self : Sched) (b : OBlock) (times : list Q)
    (cs : list (Constraint Observer Target)) :
  forall (vetoed : bool) (acc : list (list Q)) (vetoed' : bool)
         (res : list (list Q)),
    SummingScheduler.constraint_loop self b times cs vetoed acc
    = Ok (vetoed', res) ->
    res = acc
          ++ map (fun c => c (Scheduler.observer self)
                             [ObservingBlock.target b] times) cs
    /\ Forall (fun c => exists x,
                 c (Scheduler.observer self) [ObservingBlock.target b] times
                 = [x] /\ 0 <= x) cs
    /\ (vetoed' = true <->
        vetoed = true
        \/ exists c x,
             In c cs
             /\ c (Scheduler.observer self) [ObservingBlock.target b] times
                = [x]
             /\ x == 0).
Proof.
  induction cs as [|c cs IH]; intros vetoed acc vetoed' res H; simpl in H.
  - inversion H; subst. rewrite app_nil_r. split; [reflexivity|].
    split; [constructor|]. split; [intros ->; left; reflexivity|].
    intros [Hv|[c [x [[] _]]]]. exact Hv.
  - destruct (c (Scheduler.observer self) [ObservingBlock.target b] times)
      as [|x [|y r]] eqn:Ec; simpl in H; try discriminate.
    destruct (Qle_bool 0 x) eqn:Ex; simpl in H; [|discriminate].
    apply IH in H. destruct H as [Hres [Hall Hv]].
    split; [rewrite Hres, <- app_assoc; simpl; rewrite Ec; reflexivity|].
    split.
    + constructor; [|exact Hall]. exists x. split; [exact Ec|].
      apply Qle_bool_iff. exact Ex.
    + rewrite Hv. split.
      * intros [Hz|[c' [x' [Hin Hc']]]].
        -- destruct (Qeq_bool x 0) eqn:Ez; [|left; exact Hz].
           right. exists c, x. split; [left; reflexivity|].
           split; [exact Ec|apply Qeq_bool_iff; exact Ez].
        -- right. exists c', x'. split; [right; exact Hin|exact Hc'].
      * intros [Hz|[c' [x' [[<-|Hin] [Hc' Hx']]]]].
        -- left. rewrite Hz. destruct (Qeq_bool x 0); reflexivity.
        -- left. rewrite Ec in Hc'. inversion Hc'; subst x'.
           apply Qeq_bool_iff in Hx'. rewrite Hx'. reflexivity.
        -- right. exists c', x'. repeat split; assumption.
Qed.

Lemma constraint_loop_total (self : Sched) (b : OBlock) (times : list Q)
    (cs : list (Constraint Observer Target)) :
  Forall (fun c => exists x,
            c (Scheduler.observer self) [ObservingBlock.target b] times = [x]
            /\ 0 <= x) cs ->
  forall (vetoed : bool) (acc : list (list Q)),
    exists r, SummingScheduler.constraint_loop self b times cs vetoed acc = Ok r.
Proof.
  induction 1 as [|c cs [x [Hc Hx]] _ IH]; intros vetoed acc; simpl.
  - eexists. reflexivity.
  - rewrite Hc. simpl. apply Qle_bool_iff in Hx. rewrite Hx. simpl. apply IH.
Qed.

(** A result with several scores stops the constraint loop with
    [ValueError], a single negative score with [AssertionError]. *)
Lemma constraint_loop_several_scores (self : Sched) (b : OBlock)
    (times : list Q) (c : Constraint Observer Target)
    (cs : list (Constraint Observer Target)) (vetoed : bool)
    (acc : list (list Q)) (x y : Q) (r : list Q) :
  c (Scheduler.observer self) [ObservingBlock.target b] times = x :: y :: r ->
  SummingScheduler.constraint_loop self b times (c :: cs) vetoed acc
  = Raise ValueError.
Proof. intros H. simpl. rewrite H. reflexivity. Qed.

Lemma constraint_loop_negative_score (self : Sched) (b : OBlock)
    (times : list Q) (c : Constraint Observer Target)
    (cs : list (Constraint Observer Target)) (vetoed : bool)
    (acc : list (list Q)) (x : Q) :
  c (Scheduler.observer self) [ObservingBlock.target b] times = [x] ->
  x < 0 ->
  SummingScheduler.constraint_loop self b times (c :: cs) vetoed acc
  = Raise AssertionError.
Proof.
  intros H Hx. simpl. rewrite H. simpl.
  destruct (Qle_bool 0 x) eqn:E; [|reflexivity].
  apply Qle_bool_iff in E. lra.
Qed.

(** The scoring of [SummingScheduler] for constraints that return a single
    score, whatever the number of sample times: when the scoring of a block
    completes, its score is the priority times the sum of all constraint
    scores if none of them is 0, and 0 if one of them is 0; and the scoring
    completes when every constraint returns a single non-negative score.  A
    constraint that returns one score per sample time never lets it
    complete. *)
Lemma summing_score_when_completed :
  forall (self : Sched) (st : LState) (b0 : OBlock)
         (trans : option TransitionBlock.t),
    let b := prepare self b0 in
    block_transition separation self (new_blocks st) b (current_time st)
    = Ok trans ->
    let effective :=
      Scheduler.constraints self
      ++ match ObservingBlock.constraints b0 with
         | None => []
         | Some cs => cs
         end in
    let start := current_time st + transition_time trans in
    let times :=
      [start + 0; start + ObservingBlock.duration b0 / 2;
       start + ObservingBlock.duration b0] in
    let results :=
      map (fun c : Constraint Observer Target =>
             c (Scheduler.observer self) [ObservingBlock.target b0] times)
        effective in
    (forall s,
       evaluate_block separation SummingScheduler.score self st b
       = Ok (trans, s) ->
       ((forall r z, In r results -> In z r -> ~ z == 0) ->
        s == ObservingBlock.priority b0 * Qsum (map Qsum results))
       /\ ((exists r z, In r results /\ In z r /\ z == 0) -> s == 0))
    /\ ((forall r, In r results -> exists x, r = [x] /\ 0 <= x) ->
        exists s,
          evaluate_block separation SummingScheduler.score self st b
          = Ok (trans, s)).
Proof.
  intros self st b0 trans b Hbt effective start times results.
  assert (Hcs : ObservingBlock._all_constraints b = effective)
    by apply prepare_all_constraints.
  assert (Ht : sample_times (current_time st) trans b = times) by reflexivity.
  unfold evaluate_block. rewrite Hbt. cbn [bind].
  unfold SummingScheduler.score. rewrite Hcs, Ht.
  split.
  - intros s Hs.
    destruct (SummingScheduler.constraint_loop self b times effective false [])
      as [[vetoed res]|] eqn:El; simpl in Hs; [|discriminate].
    apply constraint_loop_ok in El. destruct El as [Hres [Hall Hv]].
    simpl in Hres. change (ObservingBlock.target b) with
      (ObservingBlock.target b0) in *. fold results in Hres. subst res.
    rewrite Forall_forall in Hall.
    split.
    + intros Hnz. destruct vetoed.
      * exfalso. destruct (proj1 Hv eq_refl) as [Hf|[c [x [Hin [Hc Hx]]]]];
          [discriminate|].
        apply (Hnz [x] x); [|left; reflexivity|exact Hx].
        apply in_map_iff. exists c. split; [exact Hc|exact Hin].
      * simpl in Hs. inversion Hs. unfold np.sum.
        fold (Qsum (List.concat results)). rewrite Qsum_concat. reflexivity.
    + intros [r [z [Hr [Hz Hz0]]]].
      apply in_map_iff in Hr. destruct Hr as [c [Hc Hin]].
      destruct (Hall c Hin) as [x [Hcx _]].
      assert (Hvt : vetoed = true).
      { apply Hv. right. exists c, x. split; [exact Hin|].
        split; [exact Hcx|].
        rewrite Hcx in Hc. subst r. destruct Hz as [->|[]]. exact Hz0. }
      subst vetoed. simpl in Hs. inversion Hs. reflexivity.
  - intros Hsingle.
    destruct (constraint_loop_total self b times effective) with
      (vetoed := false) (acc := @nil (list Q)) as [[vetoed res] El].
    + apply Forall_forall. intros c Hc. apply Hsingle.
      apply in_map_iff. exists c. split; [reflexivity|exact Hc].
    + rewrite El. simpl. destruct vetoed; simpl; eexists; reflexivity.
Qed.

End Scores.

(** *** Priorities and SequentialScheduler *)

Lemma for_each_map {A B C : Type} (g : A -> B) (body : B -> Res C)
    (l : list A) :
  for_each body (map g l) = for_each (fun a => body (g a)) l.
Proof.
  induction l as [|a l IH]; simpl; [reflexivity|]. rewrite IH. reflexivity.
Qed.

Lemma for_each_ext {A B : Type} (body body' : A -> Res B) (l : list A) :
  (forall a, body a = body' a) -> for_each body l = for_each body' l.
Proof.
  intros H. induction l as [|a l IH]; simpl; [reflexivity|].
  rewrite H, IH. reflexivity.
Qed.

Lemma pop_map {A B : Type} (f : A -> B) (i : nat) (l : list A) :
  pop i (map f l) = map f (pop i l).
Proof.
  unfold pop. rewrite map_app, firstn_map, skipn_map. reflexivity.
Qed.

Section Priority.

Context {Observer Target : Type}.
Variable separation : Observer -> Q -> Target -> Target -> Q.

Local Abbreviation OBlock := (ObservingBlock.t Observer Target).
Local Abbreviation SBlock := (Block Observer Target).
Local Abbreviation Sched := (Scheduler.t Observer Target).
Local Abbreviation LState := (@LoopState Observer Target).

Lemma last_block_with_priority (p : Q) (l : list SBlock) :
  last_block (map (entry_with_priority p) l)
  = option_map (entry_with_priority p) (last_block l).
Proof.
  induction l as [|x l IH]; [reflexivity|].
  destruct l as [|y l]; [reflexivity|].
  change (last_block (map (entry_with_priority p) (x :: y :: l)))
    with (last_block (map (entry_with_priority p) (y :: l))).
  rewrite IH. reflexivity.
Qed.

(** [Transitioner.__call__] reads the targets of the blocks and the kind of
    the old block, not their priorities. *)
Lemma transitioner_call_with_priority (p : Q) (tr : Transitioner.t)
    (oldblock : option SBlock) (b : OBlock) (t : Q) (obs : Observer) :
  Transitioner.call separation tr
    (option_map (entry_with_priority p) oldblock) (with_priority p b) t obs
  = Transitioner.call separation tr oldblock b t obs.
Proof.
  destruct oldblock as [[o|tb]|]; reflexivity.
Qed.

Lemma block_transition_with_priority (p : Q) (self : Sched)
    (nb : list SBlock) (b : OBlock) (t : Q) :
  block_transition separation self (map (entry_with_priority p) nb)
    (with_priority p b) t
  = block_transition separation self nb b t.
Proof.
  unfold block_transition. rewrite last_block_with_priority.
  destruct (last_block nb) as [prev|]; [|reflexivity]. simpl.
  unfold call_transitioner.
  destruct (Scheduler.transitioner self) as [tr|]; [|reflexivity].
  apply (transitioner_call_with_priority p tr (Some prev)).
Qed.

Lemma evaluate_block_with_priority (p : Q) (self : Sched) (st : LState)
    (b : OBlock) :
  evaluate_block separation SequentialScheduler.score self
    (state_with_priority p st) (with_priority p b)
  = evaluate_block separation SequentialScheduler.score self st b.
Proof.
  unfold evaluate_block. simpl.
  rewrite block_transition_with_priority. reflexivity.
Qed.

Lemma loop_body_with_priority (p : Q) (self : Sched) (st : LState) :
  loop_body separation SequentialScheduler.score self (state_with_priority p st)
  = (st' <- loop_body separation SequentialScheduler.score self st ;;
     Ok (state_with_priority p st')).
Proof.
  unfold loop_body.
  change (blocks (state_with_priority p st))
    with (map (with_priority p) (blocks st)).
  rewrite for_each_map.
  rewrite (for_each_ext _ _ _ (evaluate_block_with_priority p self st)).
  destruct (for_each (evaluate_block separation SequentialScheduler.score self st)
              (blocks st)) as [evaluated|]; simpl; [|reflexivity].
  rewrite (nth_error_map (with_priority p)).
  destruct (nth_error (map snd evaluated) (np.argmax (map snd evaluated)))
    as [best|]; [|reflexivity].
  destruct (nth_error (map fst evaluated) (np.argmax (map snd evaluated)))
    as [trans|]; [|reflexivity].
  destruct (nth_error (blocks st) (np.argmax (map snd evaluated)))
    as [newb|]; [|reflexivity].
  simpl. destruct (Qeq_bool best 0); simpl.
  - unfold state_with_priority. simpl. rewrite map_app. reflexivity.
  - unfold state_with_priority. simpl. rewrite pop_map, map_app.
    destruct trans as [tb|]; simpl; [rewrite map_app|]; reflexivity.
Qed.

Lemma while_loop_with_priority (p : Q) (self : Sched) (fuel : nat) :
  forall st : LState,
    while_loop separation SequentialScheduler.score fuel self
      (state_with_priority p st)
    = on_schedule (state_with_priority p)
        (while_loop separation SequentialScheduler.score fuel self st).
Proof.
  induction fuel as [|fuel IH]; intros st; simpl;
    (replace (loop_cond self (state_with_priority p st))
       with (loop_cond self st)
       by (unfold loop_cond; simpl; rewrite length_map; reflexivity));
    destruct (loop_cond self st); try reflexivity.
  rewrite loop_body_with_priority.
  destruct (loop_body separation SequentialScheduler.score self st) as [st1|e];
    simpl; [apply IH|reflexivity].
Qed.

Lemma sequential_call_with_priority (p : Q) (self : Sched) (fuel : nat)
    (blocks : list OBlock) :
  SequentialScheduler.call separation fuel self (map (with_priority p) blocks)
  = on_schedule (map (entry_with_priority p))
      (SequentialScheduler.call separation fuel self blocks).
Proof.
  unfold SequentialScheduler.call, SequentialScheduler._make_schedule,
    Scheduler_call, make_schedule.
  rewrite !map_id.
  replace (initial_state self (map (with_priority p) blocks))
    with (state_with_priority p (initial_state self blocks)).
  - rewrite while_loop_with_priority.
    destruct (while_loop separation SequentialScheduler.score fuel self
                (initial_state self blocks)) as [[st|e]|]; reflexivity.
  - unfold state_with_priority, initial_state. simpl. rewrite !map_map.
    reflexivity.
Qed.

(** C10.  Two block lists that differ in the priorities of their blocks only
    (they are equal once every priority is set to the same value) give, for
    the same scheduler and the same fuel, the same outcome of
    [SequentialScheduler]: both run out of fuel, both raise the same
    exception, or both return schedules that are equal once the priorities of
    their observing blocks are set to that value. *)
Theorem sequential_schedule_ignores_priority :
  forall (p : Q) (self : Sched) (fuel : nat) (blocks1 blocks2 : list OBlock),
    map (with_priority p) blocks1 = map (with_priority p) blocks2 ->
    on_schedule (map (entry_with_priority p))
      (SequentialScheduler.call separation fuel self blocks1)
    = on_schedule (map (entry_with_priority p))
        (SequentialScheduler.call separation fuel self blocks2).
Proof.
  intros p self fuel blocks1 blocks2 H.
  rewrite <- !sequential_call_with_priority. rewrite H. reflexivity.
Qed.

End Priority.

(** *** Non-negative transitions *)

Section SlewTransitions.

Context {Observer Target : Type}.
Variable separation : Observer -> Q -> Target -> Target -> Q.

(** With a non-negative separation and a positive slew rate, every
    transition that the transitioner returns has a non-negative duration. *)
Lemma slew_transitions_nonneg (self : Scheduler.t Observer Target) :
  (forall obs t a b, 0 <= separation obs t a b) ->
  (forall tr r, Scheduler.transitioner self = Some tr ->
                Transitioner.slew_rate tr = Some r -> 0 < r) ->
  transitions_nonneg separation self.
Proof.
  intros Hsep Hrate oldblock b t tb Hcall.
  unfold call_transitioner in Hcall.
  destruct (Scheduler.transitioner self) as [tr|] eqn:Etr; [|discriminate].
  specialize (Hrate tr). destruct tr as [slew table]. simpl in Hrate.
  unfold Transitioner.call in Hcall. simpl in Hcall.
  destruct table; [discriminate|].
  destruct slew as [r|]; [|discriminate].
  specialize (Hrate r eq_refl eq_refl).
  destruct oldblock as [o|tb0]; simpl in Hcall; inversion Hcall; simpl.
  - assert (0 <= separation (Scheduler.observer self) t
                   (ObservingBlock.target o) (ObservingBlock.target b) / r).
    { apply Qle_shift_div_l; [exact Hrate|]. rewrite Qmult_0_l. apply Hsep. }
    lra.
  - lra.
Qed.

End SlewTransitions.

(** *** SequentialScheduler returns a schedule *)

Lemma argmax_from_bound (l : list Q) (i best_idx : nat) (best : Q) :
  (best_idx < i)%nat ->
  (np.argmax_from l i best_idx best < i + List.length l)%nat.
Proof.
  revert i best_idx best. induction l as [|x l IH]; intros i best_idx best Hlt;
    simpl.
  - lia.
  - destruct (Qlt_bool best x).
    + pose proof (IH (S i) i x (Nat.lt_succ_diag_r i)). lia.
    + pose proof (IH (S i) best_idx best (Nat.lt_lt_succ_r _ _ Hlt)). lia.
Qed.

Lemma argmax_bound (l : list Q) :
  l <> [] -> (np.argmax l < List.length l)%nat.
Proof.
  destruct l as [|x l]; [congruence|]. intros _. simpl.
  pose proof (argmax_from_bound l 1 0 x Nat.lt_0_1). lia.
Qed.

Section SequentialReturns.

Context {Observer Target : Type}.
Variable separation : Observer -> Q -> Target -> Target -> Q.

Local Abbreviation OBlock := (ObservingBlock.t Observer Target).
Local Abbreviation SBlock := (Block Observer Target).
Local Abbreviation Sched := (Scheduler.t Observer Target).
Local Abbreviation LState := (@LoopState Observer Target).

(** With a transitioner that has no reconfiguration table, computing a
    transition does not raise. *)
Lemma block_transition_total (self : Sched) (tr : Transitioner.t)
    (nb : list SBlock) (b : OBlock) (t : Q) :
  Scheduler.transitioner self = Some tr ->
  Transitioner.instrument_reconfig_times tr = None ->
  exists trans, block_transition separation self nb b t = Ok trans.
Proof.
  intros Htr Htable. unfold block_transition.
  destruct (last_block nb) as [prev|]; [|eexists; reflexivity].
  unfold call_transitioner. rewrite Htr. unfold Transitioner.call.
  rewrite Htable. simpl.
  match goal with |- context [dict_truth ?c] => destruct (dict_truth c) end;
    eexists; reflexivity.
Qed.

Lemma sequential_loop_body_total (self : Sched) (tr : Transitioner.t)
    (st : LState) :
  Scheduler.transitioner self = Some tr ->
  Transitioner.instrument_reconfig_times tr = None ->
  loop_cond self st = true ->
  exists st',
    loop_body separation SequentialScheduler.score self st = Ok st'.
Proof.
  intros Htr Htable Hc. apply loop_cond_true in Hc. destruct Hc as [Hlen _].
  unfold loop_body.
  destruct (for_each_total
              (evaluate_block separation SequentialScheduler.score self st)
              (blocks st)) as [evaluated Hev].
  { intros b _. unfold evaluate_block.
    destruct (block_transition_total self tr (new_blocks st) b
                (current_time st) Htr Htable) as [trans ->].
    simpl. eexists. reflexivity. }
  rewrite Hev. simpl.
  pose proof (for_each_length _ _ _ Hev) as Hl.
  assert (Hidx : (np.argmax (map snd evaluated) < List.length evaluated)%nat).
  { rewrite <- (length_map snd). apply argmax_bound.
    destruct evaluated; [simpl in Hl; lia|discriminate]. }
  destruct (nth_error (map snd evaluated) (np.argmax (map snd evaluated)))
    as [best|] eqn:E1.
  2:{ apply nth_error_None in E1. rewrite length_map in E1. lia. }
  destruct (nth_error (map fst evaluated) (np.argmax (map snd evaluated)))
    as [trans|] eqn:E2.
  2:{ apply nth_error_None in E2. rewrite length_map in E2. lia. }
  destruct (nth_error (blocks st) (np.argmax (map snd evaluated)))
    as [newb|] eqn:E3.
  2:{ apply nth_error_None in E3. lia. }
  destruct (Qeq_bool best 0); eexists; reflexivity.
Qed.

Lemma sequential_while_loop_returns (self : Sched) (tr : Transitioner.t) :
  Scheduler.transitioner self = Some tr ->
  Transitioner.instrument_reconfig_times tr = None ->
  forall (fuel : nat) (st : LState) (r : Res LState),
    while_loop separation SequentialScheduler.score fuel self st = Some r ->
    exists st', r = Ok st'.
Proof.
  intros Htr Htable fuel. induction fuel as [|fuel IH]; intros st r Hrun;
    simpl in Hrun; destruct (loop_cond self st) eqn:Ec; try discriminate;
    try (inversion Hrun; eexists; reflexivity).
  destruct (sequential_loop_body_total self tr st Htr Htable Ec) as [st1 Hb].
  rewrite Hb in Hrun. apply (IH st1 r Hrun).
Qed.

(** X14.  With [gap_time > 0], non-negative transitions and a transitioner
    without a reconfiguration table, a call of [SequentialScheduler] with
    [fuel_bound] passes allowed returns a schedule: it neither runs on nor
    raises. *)
Lemma sequential_call_returns (self : Sched) (tr : Transitioner.t)
    (blocks : list OBlock) (fuel : nat) :
  0 < Scheduler.gap_time self ->
  transitions_nonneg separation self ->
  Scheduler.transitioner self = Some tr ->
  Transitioner.instrument_reconfig_times tr = None ->
  (fuel_bound self blocks <= fuel)%nat ->
  exists sched,
    SequentialScheduler.call separation fuel self blocks = Some (Ok sched).
Proof.
  intros Hgap Hnn Htr Htable Hfuel.
  destruct (make_schedule_stops separation SequentialScheduler.score self
              blocks fuel Hgap Hnn Hfuel) as [r [Hrun Hr]].
  destruct (sequential_while_loop_returns self tr Htr Htable fuel _ r Hrun)
    as [st ->].
  exists (new_blocks st). apply Hr.
Qed.

End SequentialReturns.

(** ** Runs on concrete inputs *)

Module Runs.

Import Examples.

Lemma separation_nonneg (obs : unit) (t : Q) (a b : Z) :
  0 <= Examples.separation obs t a b.
Proof.
  unfold Examples.separation. change 0 with (inject_Z 0).
  rewrite <- Zle_Qle. apply Z.abs_nonneg.
Qed.

Lemma slewing_nonneg (window_end : Q) (cs : list (Constraint unit Z)) (gap : Q) :
  transitions_nonneg Examples.separation
    (scheduler window_end cs (Some slewing) gap).
Proof.
  apply slew_transitions_nonneg.
  - apply separation_nonneg.
  - intros tr r Htr Hr. simpl in Htr. inversion Htr; subst tr.
    simpl in Hr. inversion Hr. reflexivity.
Qed.

End Runs.

(** C1.  One block of one hour, observable throughout, a window of two hours
    and a [gap_time] of 30 minutes: the returned schedule is that block from
    0 to 1800 s.  Both times are set, and [end_time - start_time] is
    [gap_time], not the block's duration of 3600 s.  [SummingScheduler] does
    the same with a constraint that returns a single score. *)
Theorem scheduled_block_ends_after_gap_time :
  (exists b,
     SequentialScheduler.call Examples.separation 1
       (Examples.sched_2h [Examples.always_observable] None
          (30 * Examples.minute))
       [Examples.block_1h]
     = Some (Ok [OB b])
     /\ ObservingBlock.start_time b = Some 0
     /\ ObservingBlock.end_time b = Some 1800
     /\ ObservingBlock.duration b = 3600
     /\ 1800 - 0 == 30 * Examples.minute
     /\ ~ 1800 - 0 == ObservingBlock.duration b)
  /\ (exists b,
        SummingScheduler.call Examples.separation 1
          (Examples.sched_2h [Examples.single_score 1] None
             (30 * Examples.minute))
          [Examples.block_1h]
        = Some (Ok [OB b])
        /\ ObservingBlock.start_time b = Some 0
        /\ ObservingBlock.end_time b = Some 1800
        /\ ObservingBlock.duration b = 3600
        /\ ~ 1800 - 0 == ObservingBlock.duration b).
Proof.
  split.
  - exists (schedule_block
              (prepare (Examples.sched_2h [Examples.always_observable] None
                          (30 * Examples.minute)) Examples.block_1h)
              0 1800 1).
    split; [vm_compute; reflexivity|].
    repeat split; try reflexivity.
    simpl. intros H. vm_compute in H. discriminate.
  - exists (schedule_block
              (prepare (Examples.sched_2h [Examples.single_score 1] None
                          (30 * Examples.minute)) Examples.block_1h)
              0 1800 1).
    split; [vm_compute; reflexivity|].
    repeat split; try reflexivity.
    simpl. intros H. vm_compute in H. discriminate.
Qed.

(** C8.  A [SummingScheduler] whose constraint returns one score per sample
    time raises [ValueError] in its first pass, at the truth test of
    [assert constraint_result >= 0]: with all scores 1 (no negative score)
    the call is aborted all the same, and with all scores -1 the exception is
    not the assertion failure.  A single negative score does raise
    [AssertionError]; [SequentialScheduler] raises for none of these. *)
Theorem summing_assert_on_sample_scores :
  forall fuel : nat,
    SummingScheduler.call Examples.separation (S fuel)
      (Examples.sched_2h [Examples.always_observable] None
         (30 * Examples.minute))
      [Examples.block_1h]
    = Some (Raise ValueError)
    /\ SummingScheduler.call Examples.separation (S fuel)
         (Examples.sched_2h [Examples.negative_scores] None
            (30 * Examples.minute))
         [Examples.block_1h]
       = Some (Raise ValueError)
    /\ SummingScheduler.call Examples.separation (S fuel)
         (Examples.sched_2h [Examples.single_score (- (1))] None
            (30 * Examples.minute))
         [Examples.block_1h]
       = Some (Raise AssertionError)
    /\ (exists sched,
          SequentialScheduler.call Examples.separation 1
            (Examples.sched_2h [Examples.negative_scores] None
               (30 * Examples.minute))
            [Examples.block_1h]
          = Some (Ok sched)).
Proof.
  intros fuel. repeat split; try reflexivity.
  eexists. vm_compute. reflexivity.
Qed.

(** C3, on an input: of two constraints, one scores 1 at the three sample
    times and the other 1, 0, 0; the transition is computed and the score of
    the block is 0. *)
Lemma sequential_score_is_product_witness :
  block_transition Examples.separation Examples.veto_scheduler []
    (prepare Examples.veto_scheduler Examples.block_1h) 0 = Ok None
  /\ exists s,
       evaluate_block Examples.separation SequentialScheduler.score
         Examples.veto_scheduler
         (initial_state Examples.veto_scheduler [Examples.block_1h])
         (prepare Examples.veto_scheduler Examples.block_1h)
       = Ok (None, s)
       /\ s == 0.
Proof.
  split; [reflexivity|].
  destruct (sequential_score_is_product Examples.separation
              Examples.veto_scheduler
              (initial_state Examples.veto_scheduler [Examples.block_1h])
              Examples.block_1h None eq_refl) as [s [Hev [_ Hveto]]].
  exists s. split; [exact Hev|].
  apply (Hveto Examples.observable_at_zero 0).
  - right. left. reflexivity.
  - right. left. reflexivity.
  - reflexivity.
Defined.

(** C4.  A pending block of any priority under a constraint that returns
    one score per sample time.  With the scores 1, 1, 1 (none is 0) the
    scoring of the block in a pass of [SummingScheduler] raises [ValueError]
    at [assert constraint_result >= 0]: there is no aggregate score, where
    the priority times 3 is expected.  With the scores 1, 0, 0 it raises
    [ValueError] as well, where an aggregate score of 0 is expected. *)
Theorem summing_score_raises_on_sample_scores :
  forall priority : Q,
    let b :=
      prepare Examples.sample_scheduler
        (Examples.block_at 0 Examples.hour priority) in
    let b' :=
      prepare Examples.zero_sample_scheduler
        (Examples.block_at 0 Examples.hour priority) in
    Examples.always_observable tt [ObservingBlock.target b]
      (sample_times 0 None b) = [1; 1; 1]
    /\ evaluate_block Examples.separation SummingScheduler.score
         Examples.sample_scheduler
         (initial_state Examples.sample_scheduler
            [Examples.block_at 0 Examples.hour priority]) b
       = Raise ValueError
    /\ Examples.observable_at_zero tt [ObservingBlock.target b']
         (sample_times 0 None b') = [1; 0; 0]
    /\ evaluate_block Examples.separation SummingScheduler.score
         Examples.zero_sample_scheduler
         (initial_state Examples.zero_sample_scheduler
            [Examples.block_at 0 Examples.hour priority]) b'
       = Raise ValueError.
Proof.
  intros priority b b'. repeat split; reflexivity.
Qed.

(** C5, on an input: the schedule of two blocks ten degrees apart is the
    first block, the slew and the second block; the first block and the
    second block are in order and do not overlap. *)
Lemma returned_schedule_sorted_disjoint_witness :
  0 <= Scheduler.gap_time Examples.slew_scheduler
  /\ transitions_nonneg Examples.separation Examples.slew_scheduler
  /\ SequentialScheduler.call Examples.separation 5 Examples.slew_scheduler
       Examples.two_blocks = Some (Ok Examples.slew_schedule)
  /\ exists ii ij,
       interval (OB (schedule_block
                       (prepare Examples.slew_scheduler
                          (Examples.block_at 0 Examples.hour 1)) 0 1800 1))
       = Some ii
       /\ interval (OB (schedule_block
                          (prepare Examples.slew_scheduler
                             (Examples.block_at 10 Examples.hour 1))
                          1810 3610 1))
          = Some ij
       /\ fst ii <= fst ij /\ snd ii <= fst ij /\ ~ overlap ii ij.
Proof.
  assert (Hgap : 0 <= Scheduler.gap_time Examples.slew_scheduler)
    by discriminate.
  pose proof (Runs.slewing_nonneg (2 * Examples.hour)
                [Examples.always_observable] (30 * Examples.minute)) as Htr.
  assert (Hcall : SequentialScheduler.call Examples.separation 5
                    Examples.slew_scheduler Examples.two_blocks
                  = Some (Ok Examples.slew_schedule))
    by (vm_compute; reflexivity).
  split; [exact Hgap|]. split; [exact Htr|]. split; [exact Hcall|].
  apply (returned_schedule_sorted_disjoint Examples.separation 5
           Examples.slew_scheduler Examples.two_blocks Examples.slew_schedule
           Hgap Htr (or_introl Hcall) 0%nat 2%nat).
  - lia.
  - reflexivity.
  - reflexivity.
Defined.

(** C6, against the claim as stated: in a window of ten minutes with a
    [gap_time] of 30 minutes the block is scheduled from 0 to 1800 s and ends
    after the end of the window at 600 s. *)
Lemma entry_ends_after_window :
  exists sched b,
    SequentialScheduler.call Examples.separation 1 Examples.short_window
      [Examples.block_1h] = Some (Ok sched)
    /\ In b sched
    /\ ~ within_window Examples.short_window b.
Proof.
  exists [OB (schedule_block
                (prepare Examples.short_window Examples.block_1h) 0 1800 1)].
  eexists. split; [vm_compute; reflexivity|]. split; [left; reflexivity|].
  intros [s [e [Hi [_ He]]]]. vm_compute in Hi. inversion Hi; subst.
  vm_compute in He. apply He. reflexivity.
Qed.

(** C6, on an input: the slew of the schedule above starts within the
    window. *)
Lemma returned_entries_start_in_window_witness :
  0 <= Scheduler.gap_time Examples.slew_scheduler
  /\ transitions_nonneg Examples.separation Examples.slew_scheduler
  /\ SequentialScheduler.call Examples.separation 5 Examples.slew_scheduler
       Examples.two_blocks = Some (Ok Examples.slew_schedule)
  /\ (exists s e,
        interval (TB (TransitionBlock.init [("slew_time"%string, 10)]
                        (Some 1800)) : Block unit Z)
        = Some (s, e)
        /\ Scheduler.start_time Examples.slew_scheduler <= s /\ s <= e)
  /\ transition_starts_before Examples.slew_scheduler
       (TB (TransitionBlock.init [("slew_time"%string, 10)] (Some 1800))).
Proof.
  assert (Hgap : 0 <= Scheduler.gap_time Examples.slew_scheduler)
    by discriminate.
  pose proof (Runs.slewing_nonneg (2 * Examples.hour)
                [Examples.always_observable] (30 * Examples.minute)) as Htr.
  assert (Hcall : SequentialScheduler.call Examples.separation 5
                    Examples.slew_scheduler Examples.two_blocks
                  = Some (Ok Examples.slew_schedule))
    by (vm_compute; reflexivity).
  split; [exact Hgap|]. split; [exact Htr|]. split; [exact Hcall|].
  apply (returned_entries_start_in_window Examples.separation 5
           Examples.slew_scheduler Examples.two_blocks Examples.slew_schedule
           Hgap Htr (or_introl Hcall)).
  right. left. reflexivity.
Defined.

(** With [gap_time] zero and a block that is never observable, every pass
    appends a gap of no length and leaves the clock at the start of the
    window. *)
Lemma zero_gap_loop_runs_on (fuel : nat) :
  forall nb : list (Block unit Z),
    while_loop Examples.separation SequentialScheduler.score fuel
      Examples.zero_gap
      (mkLoopState [prepare Examples.zero_gap Examples.block_1h] nb 0)
    = None.
Proof.
  induction fuel as [|fuel IH]; intros nb; [reflexivity|].
  assert (Hbt : block_transition Examples.separation Examples.zero_gap nb
                  (prepare Examples.zero_gap Examples.block_1h) 0 = Ok None).
  { unfold block_transition. destruct (last_block nb); reflexivity. }
  assert (Hbody :
    loop_body Examples.separation SequentialScheduler.score Examples.zero_gap
      (mkLoopState [prepare Examples.zero_gap Examples.block_1h] nb 0)
    = Ok (mkLoopState [prepare Examples.zero_gap Examples.block_1h]
            (nb ++ [TB (nothing_observable Examples.zero_gap 0)]) 0)).
  { unfold loop_body. cbn [blocks for_each]. unfold evaluate_block.
    cbn [new_blocks current_time]. rewrite Hbt. reflexivity. }
  change (while_loop Examples.separation SequentialScheduler.score (S fuel)
            Examples.zero_gap
            (mkLoopState [prepare Examples.zero_gap Examples.block_1h] nb 0))
    with (match loop_body Examples.separation SequentialScheduler.score
                  Examples.zero_gap
                  (mkLoopState [prepare Examples.zero_gap Examples.block_1h]
                     nb 0)
          with
          | Ok st' =>
              while_loop Examples.separation SequentialScheduler.score fuel
                Examples.zero_gap st'
          | Raise e => Some (Raise e)
          end).
  rewrite Hbody. apply IH.
Qed.

(** C7, against the claim as stated: with a [gap_time] of zero and a block
    that is never observable, no amount of fuel lets the call end. *)
Lemma zero_gap_never_stops :
  ~ call_stops
      (fun fuel =>
         SequentialScheduler.call Examples.separation fuel Examples.zero_gap
           [Examples.block_1h]).
Proof.
  intros [fuel [r Hr]].
  unfold SequentialScheduler.call, SequentialScheduler._make_schedule,
    Scheduler_call, make_schedule in Hr.
  change (initial_state Examples.zero_gap
            (map (fun block => block) [Examples.block_1h]))
    with (mkLoopState [prepare Examples.zero_gap Examples.block_1h]
            (@nil (Block unit Z)) 0) in Hr.
  rewrite zero_gap_loop_runs_on in Hr. discriminate.
Qed.

(** C7, on an input: two blocks under the slewing transitioner with a
    [gap_time] of 30 minutes in a window of two hours; six passes are
    enough. *)
Lemma scheduling_loop_stops_witness :
  0 < Scheduler.gap_time Examples.slew_scheduler
  /\ transitions_nonneg Examples.separation Examples.slew_scheduler
  /\ (fuel_bound Examples.slew_scheduler Examples.two_blocks <= 6)%nat
  /\ loop_outcome Examples.separation SequentialScheduler.score
       (SequentialScheduler.call Examples.separation)
       Examples.slew_scheduler Examples.two_blocks 6
  /\ loop_outcome Examples.separation SummingScheduler.score
       (SummingScheduler.call Examples.separation)
       Examples.slew_scheduler Examples.two_blocks 6.
Proof.
  assert (Hgap : 0 < Scheduler.gap_time Examples.slew_scheduler)
    by reflexivity.
  pose proof (Runs.slewing_nonneg (2 * Examples.hour)
                [Examples.always_observable] (30 * Examples.minute)) as Htr.
  assert (Hfuel : (fuel_bound Examples.slew_scheduler Examples.two_blocks
                   <= 6)%nat)
    by (vm_compute; lia).
  split; [exact Hgap|]. split; [exact Htr|]. split; [exact Hfuel|].
  exact (scheduling_loop_stops Examples.separation Examples.slew_scheduler
           Examples.two_blocks 6 Hgap Htr Hfuel).
Defined.

(** C10, on an input: the two blocks with priorities 1 and 1, and with
    priorities 5 and 7. *)
Lemma sequential_schedule_ignores_priority_witness :
  map (with_priority 1) Examples.two_blocks
  = map (with_priority 1) Examples.two_blocks_other_priorities
  /\ on_schedule (map (entry_with_priority 1))
       (SequentialScheduler.call Examples.separation 5
          Examples.slew_scheduler Examples.two_blocks)
     = on_schedule (map (entry_with_priority 1))
         (SequentialScheduler.call Examples.separation 5
            Examples.slew_scheduler Examples.two_blocks_other_priorities).
Proof.
  split; [reflexivity|].
  apply (sequential_schedule_ignores_priority Examples.separation 1
           Examples.slew_scheduler 5 Examples.two_blocks
           Examples.two_blocks_other_priorities).
  reflexivity.
Defined.

(** ** Further properties of the code *)

(** *** Constructors *)

(** X1.  The window that [from_timespan] builds has the given duration, is
    centred on the given time, and is non-empty exactly when the duration is
    positive; the other arguments are stored as given. *)
Theorem from_timespan_window :
  forall (Observer Target : Type) (center_time duration : Q)
         (constraints : list (Constraint Observer Target)) (observer : Observer)
         (transitioner : option Transitioner.t) (gap_time : Q),
    let self :=
      Scheduler.from_timespan center_time duration constraints observer
        transitioner gap_time in
    Scheduler.end_time self - Scheduler.start_time self == duration
    /\ (Scheduler.start_time self + Scheduler.end_time self) / 2 == center_time
    /\ (Scheduler.start_time self < Scheduler.end_time self <-> 0 < duration)
    /\ Scheduler.constraints self = constraints
    /\ Scheduler.transitioner self = transitioner
    /\ Scheduler.gap_time self = gap_time.
Proof.
  intros Observer Target center_time duration constraints observer
    transitioner gap_time self.
  unfold self, Scheduler.from_timespan. simpl.
  split; [field|]. split; [field|]. split; [|repeat split].
  assert (E : duration / 2 == duration * (1 # 2)) by (field).
  split; intros H; lra.
Qed.

Lemma fold_left_imageset_durations (l : list ImageSet.t) (a : Q) :
  fold_left (fun d IS => d + ImageSet.duration IS) l a
  == a + Qsum (map ImageSet.duration l).
Proof.
  revert a. induction l as [|x l IH]; intros a; simpl.
  - lra.
  - rewrite IH. lra.
Qed.

(** X2.  A block made by [from_imagesets] from a non-empty list of image
    sets lasts the sum of their durations, is unscheduled, keeps the given
    priority and has no constraints of its own, so that a scheduler scores it
    with the scheduler's constraints only; the configurations of the image
    sets are not read. *)
Theorem from_imagesets_block :
  forall (Observer Target : Type) (self : Scheduler.t Observer Target)
         (target : Target) (imageset_list : list ImageSet.t) (priority : Q),
    imageset_list <> [] ->
    let ob : ObservingBlock.t Observer Target :=
      ObservingBlock.from_imagesets target imageset_list priority in
    ObservingBlock.duration ob == Qsum (map ImageSet.duration imageset_list)
    /\ ObservingBlock.start_time ob = None
    /\ ObservingBlock.end_time ob = None
    /\ ObservingBlock.priority ob = priority
    /\ ObservingBlock._all_constraints (prepare self ob)
       = Scheduler.constraints self.
Proof.
  intros Observer Target self target imageset_list priority _ ob.
  split; [|repeat split].
  unfold ob, ObservingBlock.from_imagesets. simpl.
  rewrite fold_left_imageset_durations. lra.
Qed.

Lemma from_imagesets_block_witness :
  [ImageSet.from_exposures 30 4 5 []; ImageSet.from_exposures 60 2 0 []] <> []
  /\ ObservingBlock.duration
       (ObservingBlock.from_imagesets (Observer:=unit) 0%Z
          [ImageSet.from_exposures 30 4 5 []; ImageSet.from_exposures 60 2 0 []]
          1)
     == 4 * (30 + 5) + 2 * (60 + 0).
Proof.
  assert (Hne : [ImageSet.from_exposures 30 4 5 [];
                 ImageSet.from_exposures 60 2 0 []] <> []) by discriminate.
  split; [exact Hne|].
  destruct (from_imagesets_block unit Z Examples.sample_scheduler 0%Z
              [ImageSet.from_exposures 30 4 5 [];
               ImageSet.from_exposures 60 2 0 []] 1 Hne) as [Hd _].
  rewrite Hd. reflexivity.
Defined.

(** *** Transitioner without a reconfiguration table *)


(** *** What a pass selects *)

Lemma argmax_from_spec (l pre : list Q) (best_idx : nat) (best : Q) :
  nth_error pre best_idx = Some best ->
  (forall j x, nth_error pre j = Some x -> x <= best) ->
  (forall j x, (j < best_idx)%nat -> nth_error pre j = Some x -> x < best) ->
  exists m,
    nth_error (pre ++ l) (np.argmax_from l (List.length pre) best_idx best)
    = Some m
    /\ (forall j x, nth_error (pre ++ l) j = Some x -> x <= m)
    /\ (forall j x,
          (j < np.argmax_from l (List.length pre) best_idx best)%nat ->
          nth_error (pre ++ l) j = Some x -> x < m).
Proof.
  revert pre best_idx best.
  induction l as [|x l IH]; intros pre best_idx best Hb Hmax Hfirst; simpl.
  - rewrite app_nil_r. exists best. repeat split; assumption.
  - assert (Hlen : List.length (pre ++ [x]) = S (List.length pre))
      by (rewrite length_app; simpl; lia).
    assert (Happ : (pre ++ [x]) ++ l = pre ++ x :: l)
      by (rewrite <- app_assoc; reflexivity).
    assert (Hpre : forall j y, nth_error (pre ++ [x]) j = Some y ->
                     ((j < List.length pre)%nat /\ nth_error pre j = Some y)
                     \/ (j = List.length pre /\ y = x)).
    { intros j y Hj. destruct (Nat.lt_ge_cases j (List.length pre)) as [Hlt|Hge].
      - left. split; [exact Hlt|]. rewrite nth_error_app1 in Hj; assumption.
      - right. rewrite nth_error_app2 in Hj by exact Hge.
        destruct (j - List.length pre)%nat as [|n] eqn:En; simpl in Hj.
        + inversion Hj. split; [lia|reflexivity].
        + destruct n; discriminate. }
    destruct (Qlt_bool best x) eqn:Elt.
    + apply Qlt_bool_iff in Elt.
      specialize (IH (pre ++ [x]) (List.length pre) x).
      rewrite Hlen, Happ in IH. apply IH.
      * rewrite nth_error_app2 by lia. rewrite Nat.sub_diag. reflexivity.
      * intros j y Hj. destruct (Hpre j y Hj) as [[_ Hin]|[_ ->]]; [|lra].
        pose proof (Hmax j y Hin). lra.
      * intros j y Hlt Hj. destruct (Hpre j y Hj) as [[_ Hin]|[-> _]]; [|lia].
        pose proof (Hmax j y Hin). lra.
    + apply Qlt_bool_false_iff in Elt.
      specialize (IH (pre ++ [x]) best_idx best).
      rewrite Hlen, Happ in IH. apply IH.
      * rewrite nth_error_app1; [exact Hb|].
        apply nth_error_Some. rewrite Hb. discriminate.
      * intros j y Hj. destruct (Hpre j y Hj) as [[_ Hin]|[_ ->]]; [|lra].
        apply (Hmax j y Hin).
      * intros j y Hlt Hj. destruct (Hpre j y Hj) as [[_ Hin]|[-> _]].
        -- apply (Hfirst j y Hlt Hin).
        -- exfalso. assert (best_idx < List.length pre)%nat; [|lia].
           apply nth_error_Some. rewrite Hb. discriminate.
Qed.

(** [np.argmax]: the index of a maximum, before which every element is
    strictly smaller. *)
Lemma argmax_spec (l : list Q) :
  l <> [] ->
  exists m,
    nth_error l (np.argmax l) = Some m
    /\ (forall j x, nth_error l j = Some x -> x <= m)
    /\ (forall j x, (j < np.argmax l)%nat -> nth_error l j = Some x -> x < m).
Proof.
  destruct l as [|x l]; [congruence|]. intros _.
  apply (argmax_from_spec l [x] 0 x).
  - reflexivity.
  - intros [|[|j]] y Hj; simpl in Hj; try discriminate.
    inversion Hj. lra.
  - intros j y Hlt. lia.
Qed.

Section Passes.

Context {Observer Target : Type}.
Variable separation : Observer -> Q -> Target -> Target -> Q.
Variable score :
  Scheduler.t Observer Target -> ObservingBlock.t Observer Target ->
  list Q -> Res Q.

Local Abbreviation OBlock := (ObservingBlock.t Observer Target).
Local Abbreviation SBlock := (Block Observer Target).
Local Abbreviation Sched := (Scheduler.t Observer Target).
Local Abbreviation LState := (@LoopState Observer Target).

(** A pass that does not raise, in full: every pending block was evaluated;
    the block of the index that [np.argmax] returns has a score that no
    pending block exceeds and that every earlier pending block stays below;
    the pass inserts a gap when that score is 0 and commits the block
    otherwise. *)
Lemma loop_body_cases (self : Sched) (st st' : LState) :
  loop_body separation score self st = Ok st' ->
  exists idx newb trans best,
    nth_error (blocks st) idx = Some newb
    /\ evaluate_block separation score self st newb = Ok (trans, best)
    /\ (forall j b, nth_error (blocks st) j = Some b ->
          exists t s,
            evaluate_block separation score self st b = Ok (t, s)
            /\ s <= best /\ ((j < idx)%nat -> s < best))
    /\ ((best == 0 /\ st' = gap_state self st)
        \/ (~ best == 0 /\ st' = commit_state self st idx newb trans best)).
Proof.
  unfold loop_body.
  destruct (for_each (evaluate_block separation score self st) (blocks st))
    as [evaluated|] eqn:Efor; simpl; [|discriminate].
  set (idx := np.argmax (map snd evaluated)).
  destruct (nth_error (map snd evaluated) idx) as [best|] eqn:Ebest;
    [|discriminate].
  destruct (nth_error (map fst evaluated) idx) as [trans|] eqn:Etrans;
    [|discriminate].
  destruct (nth_error (blocks st) idx) as [newb|] eqn:Enewb; [|discriminate].
  intros Hst'. exists idx, newb, trans, best.
  destruct (for_each_nth _ _ _ _ _ Efor Enewb) as [r [Hr Hev]].
  rewrite nth_error_map, Hr in Etrans. simpl in Etrans.
  rewrite nth_error_map, Hr in Ebest. simpl in Ebest.
  destruct r as [t0 s0]. simpl in Etrans, Ebest.
  inversion Etrans; subst t0. inversion Ebest; subst s0.
  split; [exact Enewb|]. split; [exact Hev|]. split.
  - assert (Hne : map snd evaluated <> []).
    { destruct evaluated; [destruct idx; discriminate|discriminate]. }
    destruct (argmax_spec (map snd evaluated) Hne) as [m [Hm [Hmax Hfirst]]].
    fold idx in Hm, Hfirst. rewrite nth_error_map, Hr in Hm. simpl in Hm.
    inversion Hm; subst m.
    intros j b Hb.
    destruct (for_each_nth _ _ _ _ _ Efor Hb) as [[t s] [Hrj Hevj]].
    exists t, s. split; [exact Hevj|].
    assert (Hs : nth_error (map snd evaluated) j = Some s)
      by (rewrite nth_error_map, Hrj; reflexivity).
    split; [apply (Hmax j s Hs)|intros Hlt; apply (Hfirst j s Hlt Hs)].
  - destruct (Qeq_bool best 0) eqn:Ez; inversion Hst'.
    + left. split; [apply Qeq_bool_iff; exact Ez|reflexivity].
    + right. split; [apply Qeq_bool_neq; exact Ez|reflexivity].
Qed.

(** What holds at the start and is kept by every pass that does not raise
    holds when the loop is left. *)
Lemma while_loop_invariant_body (P : LState -> Prop) (self : Sched) :
  (forall s s', P s -> loop_cond self s = true ->
                loop_body separation score self s = Ok s' -> P s') ->
  forall (fuel : nat) (st st' : LState),
    P st -> while_loop separation score fuel self st = Some (Ok st') -> P st'.
Proof.
  intros Hbody fuel. induction fuel as [|fuel IH]; intros st st' HP Hrun;
    simpl in Hrun; destruct (loop_cond self st) eqn:Ec.
  - discriminate.
  - inversion Hrun; subst st'. exact HP.
  - destruct (loop_body separation score self st) as [st1|] eqn:Eb;
      [|discriminate].
    apply (IH st1 st'); [|exact Hrun]. apply (Hbody st st1 HP Ec Eb).
  - inversion Hrun; subst st'. exact HP.
Qed.

(** X4.  A pass that commits a block commits a pending block whose score is
    the largest of the scores of the pending blocks, and of the blocks with
    that score the first in the pending order: no pending block scores more,
    and every earlier one scores strictly less.  The committed block leaves
    the pending list and is appended with its score as [constraints_value]. *)
Theorem pass_commits_first_best :
  forall (self : Sched) (st st' : LState),
    loop_body separation score self st = Ok st' ->
    (List.length (blocks st') < List.length (blocks st))%nat ->
    exists idx newb trans best,
      nth_error (blocks st) idx = Some newb
      /\ evaluate_block separation score self st newb = Ok (trans, best)
      /\ ~ best == 0
      /\ (forall j b, nth_error (blocks st) j = Some b ->
            exists t s,
              evaluate_block separation score self st b = Ok (t, s)
              /\ s <= best /\ ((j < idx)%nat -> s < best))
      /\ st' = commit_state self st idx newb trans best.
Proof.
  intros self st st' Hbody Hlen.
  destruct (loop_body_cases self st st' Hbody)
    as [idx [newb [trans [best [Hnth [Hev [Hmax [[_ ->]|[Hnz ->]]]]]]]]].
  - simpl in Hlen. lia.
  - exists idx, newb, trans, best. repeat split; assumption.
Qed.

(** X5.  A pass inserts a gap exactly when the largest score of the pending
    blocks is 0.  The gap is a transition block that starts at the current
    time with the single component [nothing_observable] of [gap_time]; the
    clock advances by [gap_time] and no pending block is removed.  In
    particular, when every pending block scores 0 the pass inserts a gap. *)
Theorem pass_inserts_gap_when_best_is_zero :
  forall (self : Sched) (st st' : LState),
    loop_body separation score self st = Ok st' ->
    (blocks st' = blocks st <->
     exists b trans best,
       In b (blocks st)
       /\ evaluate_block separation score self st b = Ok (trans, best)
       /\ best == 0
       /\ forall b' t s, In b' (blocks st) ->
            evaluate_block separation score self st b' = Ok (t, s) -> s <= 0)
    /\ (blocks st' = blocks st ->
        exists gap,
          new_blocks st' = new_blocks st ++ [TB gap]
          /\ is_gap self (TB gap : SBlock)
          /\ TransitionBlock.start_time gap = Some (current_time st)
          /\ current_time st' = current_time st + Scheduler.gap_time self).
Proof.
  intros self st st' Hbody.
  destruct (loop_body_cases self st st' Hbody)
    as [idx [newb [trans [best [Hnth [Hev [Hmax Hcases]]]]]]].
  assert (Hpop : blocks (commit_state self st idx newb trans best)
                 <> blocks st).
  { intros E. pose proof (pop_length idx (blocks st) newb Hnth) as Hl.
    simpl in E. rewrite E in Hl. lia. }
  split; [split|].
  - intros Hsame. destruct Hcases as [[Hz _]|[_ ->]]; [|contradiction].
    exists newb, trans, best.
    split; [apply (nth_error_In _ _ Hnth)|]. split; [exact Hev|].
    split; [exact Hz|].
    intros b' t s Hin Hev'. apply In_nth_error in Hin. destruct Hin as [j Hj].
    destruct (Hmax j b' Hj) as [t' [s' [Hev'' [Hle _]]]].
    rewrite Hev' in Hev''. inversion Hev''; subst. lra.
  - intros [b [t [s [Hin [Hevb [Hz Hall]]]]]].
    destruct Hcases as [[_ ->]|[Hnz _]]; [reflexivity|].
    exfalso. apply Hnz.
    pose proof (Hall newb trans best (nth_error_In _ _ Hnth) Hev) as Hle.
    apply In_nth_error in Hin. destruct Hin as [j Hj].
    destruct (Hmax j b Hj) as [t' [s' [Hev' [Hle' _]]]].
    rewrite Hevb in Hev'. inversion Hev'; subst. lra.
  - intros Hsame. destruct Hcases as [[_ ->]|[_ ->]]; [|contradiction].
    exists (nothing_observable self (current_time st)).
    split; [reflexivity|]. split; [|split; reflexivity].
    simpl. split; [reflexivity|]. lra.
Qed.

(** No block is committed with a score of 0: every observing block of a
    schedule built by the loop carries a [constraints_value] other than 0. *)
Lemma returned_values_nonzero (self : Sched) (fuel : nat)
    (blocks : list OBlock) (sched : list SBlock) :
  Scheduler_call (make_schedule separation score fuel self) blocks
  = Some (Ok sched) ->
  Forall value_nonzero sched.
Proof.
  intros Hcall.
  destruct (call_returns_final_state _ _ _ _ _ _ Hcall) as [st [Hrun ->]].
  refine (while_loop_invariant_body
            (fun s => Forall value_nonzero (new_blocks s))
            self _ fuel _ st _ Hrun); [|constructor].
  intros s s' Hs _ Hbody.
  destruct (loop_body_cases self s s' Hbody)
    as [idx [newb [trans [best [_ [_ [_ [[_ ->]|[Hnz ->]]]]]]]]]; simpl.
  - apply Forall_app. split; [exact Hs|]. constructor; [exact I|constructor].
  - apply Forall_app. split.
    + destruct trans as [tb|]; simpl; [|exact Hs].
      apply Forall_app. split; [exact Hs|]. constructor; [exact I|constructor].
    + constructor; [|constructor]. simpl. exists best.
      split; [reflexivity|exact Hnz].
Qed.

End Passes.

(** X4, on an input: two pending blocks with the same score 1; the first one
    is committed. *)
Lemma pass_commits_first_best_witness :
  let st := initial_state Examples.slew_scheduler Examples.two_blocks in
  let st' :=
    commit_state Examples.slew_scheduler st 0
      (prepare Examples.slew_scheduler (Examples.block_at 0 Examples.hour 1))
      None 1 in
  loop_body Examples.separation SequentialScheduler.score
    Examples.slew_scheduler st = Ok st'
  /\ (List.length (blocks st') < List.length (blocks st))%nat
  /\ exists idx newb trans best,
       nth_error (blocks st) idx = Some newb
       /\ evaluate_block Examples.separation SequentialScheduler.score
            Examples.slew_scheduler st newb = Ok (trans, best)
       /\ ~ best == 0
       /\ (forall j b, nth_error (blocks st) j = Some b ->
             exists t s,
               evaluate_block Examples.separation SequentialScheduler.score
                 Examples.slew_scheduler st b = Ok (t, s)
               /\ s <= best /\ ((j < idx)%nat -> s < best))
       /\ st' = commit_state Examples.slew_scheduler st idx newb trans best.
Proof.
  intros st st'.
  assert (Hbody : loop_body Examples.separation SequentialScheduler.score
                    Examples.slew_scheduler st = Ok st')
    by (vm_compute; reflexivity).
  assert (Hlen : (List.length (blocks st') < List.length (blocks st))%nat)
    by (vm_compute; lia).
  split; [exact Hbody|]. split; [exact Hlen|].
  exact (pass_commits_first_best Examples.separation SequentialScheduler.score
           Examples.slew_scheduler st st' Hbody Hlen).
Defined.

(** X5, on an input: one pending block that is never observable. *)
Lemma pass_inserts_gap_when_best_is_zero_witness :
  let self :=
    Examples.sched_2h [Examples.never_observable] None (30 * Examples.minute) in
  let st := initial_state self [Examples.block_1h] in
  loop_body Examples.separation SequentialScheduler.score self st
  = Ok (gap_state self st)
  /\ exists gap,
       new_blocks (gap_state self st) = new_blocks st ++ [TB gap]
       /\ is_gap self (TB gap : Block unit Z)
       /\ TransitionBlock.start_time gap = Some (current_time st)
       /\ current_time (gap_state self st)
          = current_time st + Scheduler.gap_time self.
Proof.
  intros self st.
  assert (Hbody : loop_body Examples.separation SequentialScheduler.score
                    self st = Ok (gap_state self st))
    by (vm_compute; reflexivity).
  split; [exact Hbody|].
  apply (pass_inserts_gap_when_best_is_zero Examples.separation
           SequentialScheduler.score self st (gap_state self st) Hbody).
  reflexivity.
Defined.

Section ScheduledValues.

Context {Observer Target : Type}.
Variable separation : Observer -> Q -> Target -> Target -> Q.

Local Abbreviation OBlock := (ObservingBlock.t Observer Target).
Local Abbreviation SBlock := (Block Observer Target).
Local Abbreviation Sched := (Scheduler.t Observer Target).
Local Abbreviation LState := (@LoopState Observer Target).

(** X6.  A block whose score is 0 is never scheduled: every observing block
    of a schedule returned by either strategy has a [constraints_value], and
    it is not 0. *)
Theorem scheduled_blocks_have_nonzero_value :
  forall (fuel : nat) (self : Sched) (blocks : list OBlock)
         (sched : list SBlock),
    SequentialScheduler.call separation fuel self blocks = Some (Ok sched)
    \/ SummingScheduler.call separation fuel self blocks = Some (Ok sched) ->
    forall o : OBlock, In (OB o) sched ->
      exists v, ObservingBlock.constraints_value o = Some v /\ ~ v == 0.
Proof.
  intros fuel self blocks sched H o Ho.
  destruct (strategies_share_loop separation _ _ _ _ H) as [score Hcall].
  pose proof (returned_values_nonzero separation score self fuel blocks sched
                Hcall) as Hall.
  rewrite Forall_forall in Hall. apply (Hall (OB o) Ho).
Qed.

Lemma Qproduct_nonzero (l : list Q) :
  ~ Qproduct l == 0 -> forall z, In z l -> ~ z == 0.
Proof.
  intros Hnz z Hin Hz. apply Hnz. apply (Qproduct_zero l z Hin Hz).
Qed.

(** X7.  [SequentialScheduler] commits a block only if every one of its
    effective constraints returned a score other than 0 at every sample time
    of the pass: the current time plus the transition time plus 0, half the
    duration and the duration of the block. *)
Theorem sequential_commits_only_observable :
  forall (self : Sched) (st st' : LState),
    loop_body separation SequentialScheduler.score self st = Ok st' ->
    (List.length (blocks st') < List.length (blocks st))%nat ->
    exists idx newb trans,
      nth_error (blocks st) idx = Some newb
      /\ blocks st' = pop idx (blocks st)
      /\ block_transition separation self (new_blocks st) newb (current_time st)
         = Ok trans
      /\ forall c z,
           In c (ObservingBlock._all_constraints newb) ->
           In z (c (Scheduler.observer self) [ObservingBlock.target newb]
                   (sample_times (current_time st) trans newb)) ->
           ~ z == 0.
Proof.
  intros self st st' Hbody Hlen.
  destruct (loop_body_cases separation SequentialScheduler.score self st st'
              Hbody)
    as [idx [newb [trans [best [Hnth [Hev [_ [[_ ->]|[Hnz ->]]]]]]]]].
  - simpl in Hlen. lia.
  - exists idx, newb, trans. split; [exact Hnth|]. split; [reflexivity|].
    apply evaluate_block_transition in Hev. simpl in Hev.
    destruct Hev as [Hbt Hscore]. split; [exact Hbt|].
    unfold SequentialScheduler.score in Hscore. inversion Hscore as [Hbest].
    intros c z Hc Hz.
    assert (Hp : ~ Qproduct (List.concat
                   (SequentialScheduler.constraint_res self newb
                      (sample_times (current_time st) trans newb))) == 0).
    { intros E. apply Hnz. rewrite <- Hbest. exact E. }
    apply (Qproduct_nonzero _ Hp).
    apply in_concat. eexists. split; [|exact Hz].
    unfold SequentialScheduler.constraint_res.
    apply in_map_iff. exists c. split; [reflexivity|exact Hc].
Qed.

End ScheduledValues.

(** X6, on an input: the second block of the schedule of two blocks under
    the slewing transitioner. *)
Lemma scheduled_blocks_have_nonzero_value_witness :
  SequentialScheduler.call Examples.separation 5 Examples.slew_scheduler
    Examples.two_blocks = Some (Ok Examples.slew_schedule)
  /\ exists v,
       ObservingBlock.constraints_value
         (schedule_block
            (prepare Examples.slew_scheduler
               (Examples.block_at 10 Examples.hour 1)) 1810 3610 1)
       = Some v
       /\ ~ v == 0.
Proof.
  assert (Hcall : SequentialScheduler.call Examples.separation 5
                    Examples.slew_scheduler Examples.two_blocks
                  = Some (Ok Examples.slew_schedule))
    by (vm_compute; reflexivity).
  split; [exact Hcall|].
  apply (scheduled_blocks_have_nonzero_value Examples.separation 5
           Examples.slew_scheduler Examples.two_blocks Examples.slew_schedule
           (or_introl Hcall)).
  right. right. left. reflexivity.
Defined.

(** X7, on an input: the first pass over the two blocks. *)
Lemma sequential_commits_only_observable_witness :
  let st := initial_state Examples.slew_scheduler Examples.two_blocks in
  let st' :=
    commit_state Examples.slew_scheduler st 0
      (prepare Examples.slew_scheduler (Examples.block_at 0 Examples.hour 1))
      None 1 in
  loop_body Examples.separation SequentialScheduler.score
    Examples.slew_scheduler st = Ok st'
  /\ (List.length (blocks st') < List.length (blocks st))%nat
  /\ exists idx newb trans,
       nth_error (blocks st) idx = Some newb
       /\ blocks st' = pop idx (blocks st)
       /\ block_transition Examples.separation Examples.slew_scheduler
            (new_blocks st) newb (current_time st) = Ok trans
       /\ forall c z,
            In c (ObservingBlock._all_constraints newb) ->
            In z (c (Scheduler.observer Examples.slew_scheduler)
                    [ObservingBlock.target newb]
                    (sample_times (current_time st) trans newb)) ->
            ~ z == 0.
Proof.
  intros st st'.
  assert (Hbody : loop_body Examples.separation SequentialScheduler.score
                    Examples.slew_scheduler st = Ok st')
    by (vm_compute; reflexivity).
  assert (Hlen : (List.length (blocks st') < List.length (blocks st))%nat)
    by (vm_compute; lia).
  split; [exact Hbody|]. split; [exact Hlen|].
  exact (sequential_commits_only_observable Examples.separation
           Examples.slew_scheduler st st' Hbody Hlen).
Defined.

(** *** Schedules of gaps *)

Section OnlyGaps.

Context {Observer Target : Type}.
Variable separation : Observer -> Q -> Target -> Target -> Q.

Local Abbreviation OBlock := (ObservingBlock.t Observer Target).
Local Abbreviation SBlock := (Block Observer Target).
Local Abbreviation Sched := (Scheduler.t Observer Target).
Local Abbreviation LState := (@LoopState Observer Target).

Lemma is_gap_nothing_observable (self : Sched) (t : Q) :
  is_gap self (TB (nothing_observable self t) : SBlock).
Proof. simpl. split; [reflexivity|lra]. Qed.

(** When every input block scores 0 in every state, the loop only inserts
    gaps. *)
Lemma only_gaps (score : Sched -> OBlock -> list Q -> Res Q) (self : Sched)
    (fuel : nat) (blocks0 : list OBlock) (sched : list SBlock) :
  (forall (st : LState) b t s,
     In b (map (prepare self) blocks0) ->
     evaluate_block separation score self st b = Ok (t, s) -> s == 0) ->
  Scheduler_call (make_schedule separation score fuel self) blocks0
  = Some (Ok sched) ->
  Forall (is_gap self) sched.
Proof.
  intros Hzero Hcall.
  destruct (call_returns_final_state _ _ _ _ _ _ Hcall) as [st [Hrun ->]].
  refine (proj2 (while_loop_invariant_body separation score
                   (fun s => incl (blocks s) (map (prepare self) blocks0)
                             /\ Forall (is_gap self) (new_blocks s))
                   self _ fuel _ st _ Hrun)).
  - intros s s' [Hincl Hgaps] _ Hbody.
    destruct (loop_body_cases separation score self s s' Hbody)
      as [idx [newb [trans [best [Hnth [Hev [_ [[_ ->]|[Hnz _]]]]]]]]].
    + split; [exact Hincl|]. simpl. apply Forall_app.
      split; [exact Hgaps|]. constructor; [|constructor].
      apply is_gap_nothing_observable.
    + exfalso. apply Hnz.
      apply (Hzero s newb trans best); [|exact Hev].
      apply Hincl. apply (nth_error_In _ _ Hnth).
  - split; [apply incl_refl|constructor].
Qed.

(** X8.  If the scheduler has a constraint that returns a score of 0 among
    the scores of every non-empty list of times, [SequentialScheduler]
    schedules no block: every entry of a returned schedule is a gap with the
    single component [nothing_observable] of [gap_time]. *)
Theorem sequential_vetoed_schedule_is_gaps :
  forall (fuel : nat) (self : Sched) (blocks0 : list OBlock)
         (sched : list SBlock) (c : Constraint Observer Target),
    In c (Scheduler.constraints self) ->
    (forall targets times, times <> [] ->
       exists z, In z (c (Scheduler.observer self) targets times) /\ z == 0) ->
    SequentialScheduler.call separation fuel self blocks0 = Some (Ok sched) ->
    Forall (is_gap self) sched.
Proof.
  intros fuel self blocks0 sched c Hc Hveto Hcall.
  apply (only_gaps SequentialScheduler.score self fuel blocks0 sched);
    [|exact Hcall].
  intros st b t s Hb Hev.
  apply in_map_iff in Hb. destruct Hb as [b0 [<- _]].
  apply evaluate_block_transition in Hev. destruct Hev as [_ Hs].
  simpl in Hs. unfold SequentialScheduler.score in Hs. inversion Hs as [Hs'].
  destruct (Hveto [ObservingBlock.target (prepare self b0)]
              (sample_times (current_time st) t (prepare self b0)))
    as [z [Hz Hz0]]; [discriminate|].
  apply (Qproduct_zero _ z); [|exact Hz0].
  apply in_concat. eexists. split; [|exact Hz].
  unfold SequentialScheduler.constraint_res. apply in_map_iff.
  exists c. split; [reflexivity|].
  rewrite prepare_all_constraints. apply in_or_app. left. exact Hc.
Qed.

(** X9.  With no constraint at all (none on the scheduler, none on the
    blocks) [SummingScheduler] schedules no block: the empty sum is 0, which
    the loop reads as "nothing observable", and every entry of a returned
    schedule is a gap. *)
Theorem summing_without_constraints_is_gaps :
  forall (fuel : nat) (self : Sched) (blocks0 : list OBlock)
         (sched : list SBlock),
    Scheduler.constraints self = [] ->
    (forall b, In b blocks0 ->
       ObservingBlock.constraints b = None
       \/ ObservingBlock.constraints b = Some []) ->
    SummingScheduler.call separation fuel self blocks0 = Some (Ok sched) ->
    Forall (is_gap self) sched.
Proof.
  intros fuel self blocks0 sched Hnone Hblocks Hcall.
  apply (only_gaps SummingScheduler.score self fuel blocks0 sched);
    [|exact Hcall].
  intros st b t s Hb Hev.
  apply in_map_iff in Hb. destruct Hb as [b0 [<- Hb0]].
  apply evaluate_block_transition in Hev. destruct Hev as [_ Hs].
  simpl in Hs. unfold SummingScheduler.score in Hs.
  rewrite prepare_all_constraints, Hnone in Hs.
  assert (E : match ObservingBlock.constraints b0 with
              | Some cs => cs
              | None => []
              end = []).
  { destruct (Hblocks b0 Hb0) as [-> | ->]; reflexivity. }
  simpl in Hs. rewrite E in Hs. simpl in Hs. inversion Hs.
  unfold np.sum. simpl. lra.
Qed.

End OnlyGaps.

(** X8, on an input: a block under a constraint that scores 0 at every
    time; the window of two hours is filled by four gaps of 30 minutes. *)
Lemma sequential_vetoed_schedule_is_gaps_witness :
  let self :=
    Examples.sched_2h [Examples.never_observable]
      (Some Examples.no_transitions) (30 * Examples.minute) in
  let sched : list (Block unit Z) :=
    [TB (nothing_observable self 0); TB (nothing_observable self 1800);
     TB (nothing_observable self 3600); TB (nothing_observable self 5400)] in
  In Examples.never_observable (Scheduler.constraints self)
  /\ (forall (targets : list Z) (times : list Q), times <> [] ->
        exists z,
          In z (Examples.never_observable (Scheduler.observer self) targets
                  times)
          /\ z == 0)
  /\ SequentialScheduler.call Examples.separation 5 self [Examples.block_1h]
     = Some (Ok sched)
  /\ Forall (is_gap self) sched.
Proof.
  intros self sched.
  assert (Hin : In Examples.never_observable (Scheduler.constraints self))
    by (left; reflexivity).
  assert (Hveto : forall (targets : list Z) (times : list Q), times <> [] ->
            exists z,
              In z (Examples.never_observable (Scheduler.observer self)
                      targets times)
              /\ z == 0).
  { intros targets [|t times] Hne; [congruence|].
    exists 0. split; [left; reflexivity|reflexivity]. }
  assert (Hcall : SequentialScheduler.call Examples.separation 5 self
                    [Examples.block_1h] = Some (Ok sched))
    by (vm_compute; reflexivity).
  split; [exact Hin|]. split; [exact Hveto|]. split; [exact Hcall|].
  exact (sequential_vetoed_schedule_is_gaps Examples.separation 5 self
           [Examples.block_1h] sched Examples.never_observable Hin Hveto Hcall).
Defined.

(** X9, on an input: one block, no constraints. *)
Lemma summing_without_constraints_is_gaps_witness :
  let self :=
    Examples.sched_2h [] (Some Examples.no_transitions)
      (30 * Examples.minute) in
  let sched : list (Block unit Z) :=
    [TB (nothing_observable self 0); TB (nothing_observable self 1800);
     TB (nothing_observable self 3600); TB (nothing_observable self 5400)] in
  Scheduler.constraints self = []
  /\ (forall b, In b [Examples.block_1h] ->
        ObservingBlock.constraints b = None
        \/ ObservingBlock.constraints b = Some [])
  /\ SummingScheduler.call Examples.separation 5 self [Examples.block_1h]
     = Some (Ok sched)
  /\ Forall (is_gap self) sched.
Proof.
  intros self sched.
  assert (Hblocks : forall b, In b [Examples.block_1h] ->
            ObservingBlock.constraints b = None
            \/ ObservingBlock.constraints b = Some []).
  { intros b [<-|[]]. left. reflexivity. }
  assert (Hcall : SummingScheduler.call Examples.separation 5 self
                    [Examples.block_1h] = Some (Ok sched))
    by (vm_compute; reflexivity).
  split; [reflexivity|]. split; [exact Hblocks|]. split; [exact Hcall|].
  exact (summing_without_constraints_is_gaps Examples.separation 5 self
           [Examples.block_1h] sched eq_refl Hblocks Hcall).
Defined.

(** *** Blocks are scheduled at most once *)

Lemma pop_permutation {A : Type} (i : nat) (l : list A) (a : A) :
  nth_error l i = Some a -> Permutation (a :: pop i l) l.
Proof.
  revert i. induction l as [|x l IH]; intros i Hnth.
  - destruct i; discriminate.
  - destruct i as [|i]; simpl in Hnth.
    + inversion Hnth. unfold pop. simpl. apply Permutation_refl.
    + change (pop (S i) (x :: l)) with (x :: pop i l).
      apply perm_trans with (x :: a :: pop i l); [apply perm_swap|].
      apply perm_skip. apply IH. exact Hnth.
Qed.

Section Conservation.

Context {Observer Target : Type}.
Variable separation : Observer -> Q -> Target -> Target -> Q.

Local Abbreviation OBlock := (ObservingBlock.t Observer Target).
Local Abbreviation SBlock := (Block Observer Target).
Local Abbreviation Sched := (Scheduler.t Observer Target).
Local Abbreviation LState := (@LoopState Observer Target).

Lemma observing_blocks_app (l1 l2 : list SBlock) :
  observing_blocks (l1 ++ l2) = observing_blocks l1 ++ observing_blocks l2.
Proof.
  induction l1 as [|[o|t] l1 IH]; simpl; [reflexivity| |exact IH].
  rewrite IH. reflexivity.
Qed.

Lemma step_keeps_conservation (self : Sched) (blocks0 : list OBlock)
    (s s' : LState) :
  (exists done,
     Forall2 scheduled_from done (observing_blocks (new_blocks s))
     /\ Permutation (done ++ blocks s) (map (prepare self) blocks0)) ->
  step separation self s s' ->
  exists done,
    Forall2 scheduled_from done (observing_blocks (new_blocks s'))
    /\ Permutation (done ++ blocks s') (map (prepare self) blocks0).
Proof.
  intros [done [Hdone Hperm]] Hstep.
  destruct Hstep as [|idx newb trans best Hnth Hbt t1 t2]; simpl.
  - exists done. rewrite observing_blocks_app. simpl. rewrite app_nil_r.
    split; assumption.
  - exists (done ++ [newb]). split.
    + rewrite observing_blocks_app. simpl.
      replace (observing_blocks (append_transition (new_blocks s) trans))
        with (observing_blocks (new_blocks s)).
      * apply Forall2_app; [exact Hdone|]. constructor; [|constructor].
        exists t1, t2, best. reflexivity.
      * destruct trans as [tb|]; simpl; [|reflexivity].
        rewrite observing_blocks_app. simpl. rewrite app_nil_r. reflexivity.
    + rewrite <- app_assoc. simpl.
      apply perm_trans with (done ++ blocks s); [|exact Hperm].
      apply Permutation_app_head. apply pop_permutation. exact Hnth.
Qed.

(** X10.  The observing blocks of a schedule returned by either strategy
    are input blocks, each scheduled at most once: they are, in order, some
    input blocks with the scratch attributes, the times and the
    [constraints_value] assigned, and these together with some left-over
    blocks are the input blocks up to order.  In particular a schedule has no
    more observing blocks than the input. *)
Theorem scheduled_blocks_are_input_blocks :
  forall (fuel : nat) (self : Sched) (blocks0 : list OBlock)
         (sched : list SBlock),
    SequentialScheduler.call separation fuel self blocks0 = Some (Ok sched)
    \/ SummingScheduler.call separation fuel self blocks0 = Some (Ok sched) ->
    (exists done pending,
       Forall2 scheduled_from done (observing_blocks sched)
       /\ Permutation (done ++ pending) (map (prepare self) blocks0))
    /\ (List.length (observing_blocks sched) <= List.length blocks0)%nat.
Proof.
  intros fuel self blocks0 sched H.
  destruct (strategies_share_loop separation _ _ _ _ H) as [score Hcall].
  destruct (call_returns_final_state _ _ _ _ _ _ Hcall) as [st [Hrun ->]].
  assert (Hinv : exists done,
            Forall2 scheduled_from done (observing_blocks (new_blocks st))
            /\ Permutation (done ++ blocks st) (map (prepare self) blocks0)).
  { refine (proj1 (while_loop_invariant separation score
                     (fun s => exists done,
                        Forall2 scheduled_from done
                          (observing_blocks (new_blocks s))
                        /\ Permutation (done ++ blocks s)
                             (map (prepare self) blocks0))
                     self _ fuel _ st _ Hrun)).
    - intros s s' Hs _ Hstep.
      apply (step_keeps_conservation self blocks0 s s' Hs Hstep).
    - exists []. split; [constructor|apply Permutation_refl]. }
  destruct Hinv as [done [Hdone Hperm]]. split.
  - exists done, (blocks st). split; assumption.
  - apply Forall2_length in Hdone. apply Permutation_length in Hperm.
    rewrite length_app, length_map in Hperm. lia.
Qed.

End Conservation.

(** X10, on an input: the schedule of the two blocks. *)
Lemma scheduled_blocks_are_input_blocks_witness :
  SequentialScheduler.call Examples.separation 5 Examples.slew_scheduler
    Examples.two_blocks = Some (Ok Examples.slew_schedule)
  /\ (exists done pending,
        Forall2 scheduled_from done (observing_blocks Examples.slew_schedule)
        /\ Permutation (done ++ pending)
             (map (prepare Examples.slew_scheduler) Examples.two_blocks))
  /\ (List.length (observing_blocks Examples.slew_schedule)
      <= List.length Examples.two_blocks)%nat.
Proof.
  assert (Hcall : SequentialScheduler.call Examples.separation 5
                    Examples.slew_scheduler Examples.two_blocks
                  = Some (Ok Examples.slew_schedule))
    by (vm_compute; reflexivity).
  split; [exact Hcall|].
  exact (scheduled_blocks_are_input_blocks Examples.separation 5
           Examples.slew_scheduler Examples.two_blocks Examples.slew_schedule
           (or_introl Hcall)).
Defined.

(** *** Schedules without holes *)

Section Contiguity.

Context {Observer Target : Type}.
Variable separation : Observer -> Q -> Target -> Target -> Q.

Local Abbreviation OBlock := (ObservingBlock.t Observer Target).
Local Abbreviation SBlock := (Block Observer Target).
Local Abbreviation Sched := (Scheduler.t Observer Target).

Lemma tiles_adjacent (l : list SBlock) (t0 t1 : Q) :
  tiles t0 l t1 ->
  (forall b, nth_error l 0 = Some b ->
     exists s e, interval b = Some (s, e) /\ s == t0)
  /\ (forall i bi bj,
        nth_error l i = Some bi -> nth_error l (S i) = Some bj ->
        exists si ei sj ej,
          interval bi = Some (si, ei) /\ interval bj = Some (sj, ej)
          /\ ei == sj).
Proof.
  revert t0. induction l as [|x l IH]; intros t0 Ht.
  - split; [intros b H; discriminate|intros i bi bj H; destruct i; discriminate].
  - simpl in Ht. destruct Ht as [sx [ex [Hx [Hsx [_ Ht]]]]].
    destruct (IH ex Ht) as [Hfirst Hadj]. split.
    + intros b Hb. simpl in Hb. inversion Hb; subst b.
      exists sx, ex. split; assumption.
    + intros [|i] bi bj Hi Hj; simpl in Hi, Hj.
      * inversion Hi; subst bi.
        destruct (Hfirst bj Hj) as [s [e [Hbj Hs]]].
        exists sx, ex, s, e. repeat split; try assumption. lra.
      * apply (Hadj i bi bj Hi Hj).
Qed.

(** X11.  With [gap_time] and every transition duration non-negative, a
    schedule returned by either strategy has no hole: its first entry starts
    at the start of the window and every entry ends when the next one
    starts. *)
Theorem returned_schedule_has_no_hole :
  forall (fuel : nat) (self : Sched) (blocks0 : list OBlock)
         (sched : list SBlock),
    0 <= Scheduler.gap_time self ->
    transitions_nonneg separation self ->
    SequentialScheduler.call separation fuel self blocks0 = Some (Ok sched)
    \/ SummingScheduler.call separation fuel self blocks0 = Some (Ok sched) ->
    (forall b, nth_error sched 0 = Some b ->
       exists s e, interval b = Some (s, e) /\ s == Scheduler.start_time self)
    /\ (forall i bi bj,
          nth_error sched i = Some bi -> nth_error sched (S i) = Some bj ->
          exists si ei sj ej,
            interval bi = Some (si, ei) /\ interval bj = Some (sj, ej)
            /\ ei == sj).
Proof.
  intros fuel self blocks0 sched Hgap Htr H.
  destruct (strategies_share_loop separation _ _ _ _ H) as [score Hcall].
  destruct (returned_schedule_tiles separation score fuel self blocks0 sched
              Hgap Htr Hcall) as [t1 Ht].
  apply (tiles_adjacent sched _ _ Ht).
Qed.

End Contiguity.

(** X11, on an input: the schedule of the two blocks and the slew between
    them. *)
Lemma returned_schedule_has_no_hole_witness :
  0 <= Scheduler.gap_time Examples.slew_scheduler
  /\ transitions_nonneg Examples.separation Examples.slew_scheduler
  /\ SequentialScheduler.call Examples.separation 5 Examples.slew_scheduler
       Examples.two_blocks = Some (Ok Examples.slew_schedule)
  /\ (forall b, nth_error Examples.slew_schedule 0 = Some b ->
        exists s e,
          interval b = Some (s, e)
          /\ s == Scheduler.start_time Examples.slew_scheduler)
  /\ (forall i bi bj,
        nth_error Examples.slew_schedule i = Some bi ->
        nth_error Examples.slew_schedule (S i) = Some bj ->
        exists si ei sj ej,
          interval bi = Some (si, ei) /\ interval bj = Some (sj, ej)
          /\ ei == sj).
Proof.
  assert (Hgap : 0 <= Scheduler.gap_time Examples.slew_scheduler)
    by discriminate.
  pose proof (Runs.slewing_nonneg (2 * Examples.hour)
                [Examples.always_observable] (30 * Examples.minute)) as Htr.
  assert (Hcall : SequentialScheduler.call Examples.separation 5
                    Examples.slew_scheduler Examples.two_blocks
                  = Some (Ok Examples.slew_schedule))
    by (vm_compute; reflexivity).
  split; [exact Hgap|]. split; [exact Htr|]. split; [exact Hcall|].
  exact (returned_schedule_has_no_hole Examples.separation 5
           Examples.slew_scheduler Examples.two_blocks Examples.slew_schedule
           Hgap Htr (or_introl Hcall)).
Defined.

(** *** The default transitioner *)

Section WithoutTransitioner.

Context {Observer Target : Type}.
Variable separation : Observer -> Q -> Target -> Target -> Q.

Local Abbreviation OBlock := (ObservingBlock.t Observer Target).
Local Abbreviation SBlock := (Block Observer Target).
Local Abbreviation Sched := (Scheduler.t Observer Target).
Local Abbreviation LState := (@LoopState Observer Target).

Lemma last_block_some (l : list SBlock) :
  l <> [] -> exists prev, last_block l = Some prev.
Proof.
  induction l as [|x l IH]; [congruence|]. intros _.
  destruct l as [|y l]; [exists x; reflexivity|].
  apply IH. discriminate.
Qed.

Lemma loop_body_without_transitioner
    (score : Sched -> OBlock -> list Q -> Res Q) (self : Sched) (st : LState) :
  Scheduler.transitioner self = None ->
  new_blocks st <> [] ->
  loop_cond self st = true ->
  loop_body separation score self st = Raise TypeError.
Proof.
  intros Hnone Hnb Hc. apply loop_cond_true in Hc. destruct Hc as [Hlen _].
  unfold loop_body. destruct (blocks st) as [|b bl]; [simpl in Hlen; lia|].
  simpl. unfold evaluate_block at 1, block_transition.
  destruct (last_block_some (new_blocks st) Hnb) as [prev ->].
  unfold call_transitioner. rewrite Hnone. reflexivity.
Qed.

(** X12.  With [transitioner=None], the default, the scheduling loop of
    either strategy raises [TypeError] in every pass that starts with an
    entry already in the schedule: it calls [self.transitioner], which is
    [None]. *)
Theorem pass_without_transitioner_raises :
  forall (self : Sched) (st : LState) (fuel : nat),
    Scheduler.transitioner self = None ->
    new_blocks st <> [] ->
    loop_cond self st = true ->
    while_loop separation SequentialScheduler.score (S fuel) self st
    = Some (Raise TypeError)
    /\ while_loop separation SummingScheduler.score (S fuel) self st
       = Some (Raise TypeError).
Proof.
  intros self st fuel Hnone Hnb Hc.
  split; simpl; rewrite Hc;
    rewrite (loop_body_without_transitioner _ self st Hnone Hnb Hc);
    reflexivity.
Qed.

(** X13.  With [transitioner=None] a schedule returned by either strategy
    has at most one entry: a call returns only if the loop stops after its
    first pass. *)
Theorem schedule_without_transitioner_is_short :
  forall (fuel : nat) (self : Sched) (blocks0 : list OBlock)
         (sched : list SBlock),
    Scheduler.transitioner self = None ->
    SequentialScheduler.call separation fuel self blocks0 = Some (Ok sched)
    \/ SummingScheduler.call separation fuel self blocks0 = Some (Ok sched) ->
    (List.length sched <= 1)%nat.
Proof.
  intros fuel self blocks0 sched Hnone H.
  destruct (strategies_share_loop separation _ _ _ _ H) as [score Hcall].
  destruct (call_returns_final_state _ _ _ _ _ _ Hcall) as [st [Hrun ->]].
  refine (while_loop_invariant_body separation score
            (fun s => (List.length (new_blocks s) <= 1)%nat)
            self _ fuel _ st _ Hrun); [|simpl; lia].
  intros s s' Hs Hc Hbody.
  destruct (new_blocks s) as [|x nb] eqn:Enb.
  - apply loop_body_step in Hbody.
    destruct Hbody as [|idx newb trans best Hnth Hbt t1 t2]; simpl;
      rewrite Enb.
    + simpl. lia.
    + rewrite Enb in Hbt. simpl in Hbt. inversion Hbt. simpl. lia.
  - rewrite (loop_body_without_transitioner score self s Hnone) in Hbody;
      [discriminate|rewrite Enb; discriminate|exact Hc].
Qed.

End WithoutTransitioner.

(** X12, on an input: two observable blocks and no transitioner; the state
    after the first pass. *)
Lemma pass_without_transitioner_raises_witness :
  let self :=
    Examples.sched_2h [Examples.always_observable] None
      (30 * Examples.minute) in
  let st :=
    commit_state self (initial_state self Examples.two_blocks) 0
      (prepare self (Examples.block_at 0 Examples.hour 1)) None 1 in
  Scheduler.transitioner self = None
  /\ new_blocks st <> []
  /\ loop_cond self st = true
  /\ while_loop Examples.separation SequentialScheduler.score 1 self st
     = Some (Raise TypeError)
  /\ while_loop Examples.separation SummingScheduler.score 1 self st
     = Some (Raise TypeError).
Proof.
  intros self st.
  assert (Hnb : new_blocks st <> []) by discriminate.
  split; [reflexivity|]. split; [exact Hnb|]. split; [reflexivity|].
  exact (pass_without_transitioner_raises Examples.separation self st 0
           eq_refl Hnb eq_refl).
Defined.

(** X13, on an input: one observable block and no transitioner. *)
Lemma schedule_without_transitioner_is_short_witness :
  let self :=
    Examples.sched_2h [Examples.always_observable] None
      (30 * Examples.minute) in
  let sched := [OB (schedule_block (prepare self Examples.block_1h) 0 1800 1)] in
  Scheduler.transitioner self = None
  /\ SequentialScheduler.call Examples.separation 1 self [Examples.block_1h]
     = Some (Ok sched)
  /\ (List.length sched <= 1)%nat.
Proof.
  intros self sched.
  assert (Hcall : SequentialScheduler.call Examples.separation 1 self
                    [Examples.block_1h] = Some (Ok sched))
    by (vm_compute; reflexivity).
  split; [reflexivity|]. split; [exact Hcall|].
  exact (schedule_without_transitioner_is_short Examples.separation 1 self
           [Examples.block_1h] sched eq_refl (or_introl Hcall)).
Defined.

(** X14, on an input: [sequential_call_returns] for the two blocks under the
    slewing transitioner. *)
Lemma sequential_call_returns_witness :
  0 < Scheduler.gap_time Examples.slew_scheduler
  /\ transitions_nonneg Examples.separation Examples.slew_scheduler
  /\ Scheduler.transitioner Examples.slew_scheduler = Some Examples.slewing
  /\ Transitioner.instrument_reconfig_times Examples.slewing = None
  /\ (fuel_bound Examples.slew_scheduler Examples.two_blocks <= 6)%nat
  /\ exists sched,
       SequentialScheduler.call Examples.separation 6 Examples.slew_scheduler
         Examples.two_blocks = Some (Ok sched).
Proof.
  assert (Hgap : 0 < Scheduler.gap_time Examples.slew_scheduler)
    by reflexivity.
  pose proof (Runs.slewing_nonneg (2 * Examples.hour)
                [Examples.always_observable] (30 * Examples.minute)) as Htr.
  assert (Hfuel : (fuel_bound Examples.slew_scheduler Examples.two_blocks
                   <= 6)%nat)
    by (vm_compute; lia).
  split; [exact Hgap|]. split; [exact Htr|]. split; [reflexivity|].
  split; [reflexivity|]. split; [exact Hfuel|].
  exact (sequential_call_returns Examples.separation Examples.slew_scheduler
           Examples.slewing Examples.two_blocks 6 Hgap Htr eq_refl eq_refl
           Hfuel).
Defined.

(** *** SummingScheduler and per-sample scores *)

Section SummingSamples.

Context {Observer Target : Type}.
Variable separation : Observer -> Q -> Target -> Target -> Q.

Local Abbreviation OBlock := (ObservingBlock.t Observer Target).
Local Abbreviation SBlock := (Block Observer Target).
Local Abbreviation Sched := (Scheduler.t Observer Target).

(** X15.  When the first effective constraint of the first block returns one
    score per sample time, a call of [SummingScheduler] on a non-empty
    window raises [ValueError] in its first pass, whatever the scores are:
    the truth value of the three-element comparison in
    [assert constraint_result >= 0] is ambiguous. *)
Theorem summing_raises_on_per_sample_scores :
  forall (self : Sched) (b0 : OBlock) (rest : list OBlock)
         (c : Constraint Observer Target)
         (cs : list (Constraint Observer Target)) (fuel : nat),
    Scheduler.start_time self < Scheduler.end_time self ->
    ObservingBlock._all_constraints (prepare self b0) = c :: cs ->
    (forall targets times,
       List.length (c (Scheduler.observer self) targets times)
       = List.length times) ->
    SummingScheduler.call separation (S fuel) self (b0 :: rest)
    = Some (Raise ValueError).
Proof.
  intros self b0 rest c cs fuel Hwin Hcs Hlen.
  unfold SummingScheduler.call, SummingScheduler._make_schedule,
    Scheduler_call, make_schedule.
  rewrite map_id. simpl while_loop.
  assert (Hc : loop_cond self (initial_state self (b0 :: rest)) = true).
  { unfold loop_cond. simpl. apply Qlt_bool_iff. exact Hwin. }
  rewrite Hc.
  assert (Hbody : loop_body separation SummingScheduler.score self
                    (initial_state self (b0 :: rest)) = Raise ValueError).
  { unfold loop_body.
    change (blocks (initial_state self (b0 :: rest)))
      with (prepare self b0 :: map (prepare self) rest).
    cbn [for_each]. unfold evaluate_block at 1.
    unfold block_transition. cbn [new_blocks initial_state last_block bind].
    lazymatch goal with
    | |- context [SummingScheduler.score self ?b ?ts] =>
        assert (Hs : SummingScheduler.score self b ts = Raise ValueError);
        [ unfold SummingScheduler.score; rewrite Hcs;
          pose proof (Hlen [ObservingBlock.target b] ts) as Hl;
          destruct (c (Scheduler.observer self) [ObservingBlock.target b] ts)
            as [|x [|y r]] eqn:Er;
          [ simpl in Hl; discriminate Hl | simpl in Hl; discriminate Hl | ];
          cbn [SummingScheduler.constraint_loop]; rewrite Er; reflexivity
        | rewrite Hs; reflexivity ]
    end. }
  rewrite Hbody. reflexivity.
Qed.

End SummingSamples.

(** X15, on an input: the constraint that scores 1 at every sample time. *)
Lemma summing_raises_on_per_sample_scores_witness :
  Scheduler.start_time Examples.sample_scheduler
  < Scheduler.end_time Examples.sample_scheduler
  /\ ObservingBlock._all_constraints
       (prepare Examples.sample_scheduler Examples.block_1h)
     = [Examples.always_observable]
  /\ (forall (targets : list Z) (times : list Q),
        List.length
          (Examples.always_observable
             (Scheduler.observer Examples.sample_scheduler) targets times)
        = List.length times)
  /\ SummingScheduler.call Examples.separation 1 Examples.sample_scheduler
       [Examples.block_1h] = Some (Raise ValueError).
Proof.
  assert (Hlen : forall (targets : list Z) (times : list Q),
            List.length
              (Examples.always_observable
                 (Scheduler.observer Examples.sample_scheduler) targets times)
            = List.length times).
  { intros targets times. unfold Examples.always_observable.
    apply length_map. }
  split; [reflexivity|]. split; [reflexivity|]. split; [exact Hlen|].
  exact (summing_raises_on_per_sample_scores Examples.separation
           Examples.sample_scheduler Examples.block_1h []
           Examples.always_observable [] 0 eq_refl eq_refl Hlen).
Defined.

(** *** The driver's sort *)

Section SortBranch.

Context {Observer Target : Type}.

Local Abbreviation OBlock := (ObservingBlock.t Observer Target).
Local Abbreviation SBlock := (Block Observer Target).

Lemma key_eqb_refl (k : option Q) : key_eqb k k = true.
Proof. destruct k; simpl; [apply Qeq_bool_refl|reflexivity]. Qed.

Lemma key_eqb_sym (k k' : option Q) : key_eqb k k' = key_eqb k' k.
Proof.
  destruct k as [x|], k' as [y|]; simpl; try reflexivity.
  destruct (Qeq_bool x y) eqn:E1, (Qeq_bool y x) eqn:E2; try reflexivity.
  - apply Qeq_bool_sym in E1. congruence.
  - apply Qeq_bool_sym in E2. congruence.
Qed.

Lemma insert_key_permutation (k : option Q) (ks s : list (option Q)) :
  insert_key k ks = Ok s -> Permutation s (k :: ks).
Proof.
  revert s. induction ks as [|k' ks IH]; intros s H; simpl in H.
  - inversion H. apply Permutation_refl.
  - destruct k as [x|], k' as [y|]; try discriminate.
    destruct (Qle_bool x y); [inversion H; apply Permutation_refl|].
    destruct (insert_key (Some x) ks) as [s''|]; simpl in H; [|discriminate].
    inversion H.
    apply perm_trans with (Some y :: Some x :: ks); [|apply perm_swap].
    apply perm_skip. apply IH. reflexivity.
Qed.

Lemma sorted_keys_permutation (ks s : list (option Q)) :
  sorted_keys ks = Ok s -> Permutation s ks.
Proof.
  revert s. induction ks as [|k ks IH]; intros s H; simpl in H.
  - inversion H. apply Permutation_refl.
  - destruct (sorted_keys ks) as [s0|]; simpl in H; [|discriminate].
    apply perm_trans with (k :: s0);
      [apply insert_key_permutation; exact H|].
    apply perm_skip. apply IH. reflexivity.
Qed.

Lemma insert_key_sorted (k : option Q) (ks s : list (option Q)) :
  insert_key k ks = Ok s ->
  StronglySorted key_lt ks ->
  Forall (fun k' => key_eqb k k' = false) ks ->
  StronglySorted key_lt s.
Proof.
  revert s. induction ks as [|k' ks IH]; intros s H Hs Hd; simpl in H.
  - inversion H. constructor; constructor.
  - destruct k as [x|], k' as [y|]; try discriminate.
    inversion Hs as [|? ? Hs' Hf]; subst.
    inversion Hd as [|? ? Hxy Hd']; subst. simpl in Hxy.
    apply Qeq_bool_neq in Hxy.
    destruct (Qle_bool x y) eqn:E.
    + inversion H; subst s. apply Qle_bool_iff in E.
      assert (Hlt : x < y).
      { destruct (Qle_lt_or_eq _ _ E) as [Hl|He]; [exact Hl|contradiction]. }
      constructor; [exact Hs|]. constructor; [exact Hlt|].
      apply (Forall_impl _ (P := key_lt (Some y))); [|exact Hf].
      intros [z|] Hz; simpl in *; [lra|exact Hz].
    + destruct (insert_key (Some x) ks) as [s''|] eqn:Ei; simpl in H;
        [|discriminate].
      inversion H; subst s.
      assert (Hyx : y < x).
      { apply Qnot_le_lt. intros Hle. apply Qle_bool_iff in Hle. congruence. }
      constructor; [apply (IH s'' eq_refl Hs' Hd')|].
      apply Forall_forall. intros z Hz.
      apply (Permutation_in _ (insert_key_permutation _ _ _ Ei)) in Hz.
      destruct Hz as [<-|Hz]; [exact Hyx|].
      rewrite Forall_forall in Hf. apply (Hf z Hz).
Qed.

Lemma sorted_keys_sorted (ks s : list (option Q)) :
  sorted_keys ks = Ok s ->
  ForallOrdPairs (fun k k' => key_eqb k k' = false) ks ->
  StronglySorted key_lt s.
Proof.
  revert s. induction ks as [|k ks IH]; intros s H Hd; simpl in H.
  - inversion H. constructor.
  - destruct (sorted_keys ks) as [s0|] eqn:Es; simpl in H; [|discriminate].
    inversion Hd as [|? ? Hk Hd']; subst.
    apply (insert_key_sorted k s0 s H (IH s0 eq_refl Hd')).
    apply Forall_forall. intros z Hz.
    apply (Permutation_in _ (sorted_keys_permutation _ _ Es)) in Hz.
    rewrite Forall_forall in Hk. apply (Hk z Hz).
Qed.

Lemma set_keys (k : option Q) (b : SBlock) (m : list (option Q * SBlock))
    (k'' : option Q) :
  In k'' (map fst (block_time_map_set k b m)) ->
  In k'' (map fst m) \/ k'' = k.
Proof.
  induction m as [|[k' b'] m IH]; simpl.
  - intros [<-|[]]. right. reflexivity.
  - destruct (key_eqb k k'); simpl.
    + intros H. left. exact H.
    + intros [<-|H]; [left; left; reflexivity|].
      destruct (IH H) as [Hin| ->]; [left; right; exact Hin|right; reflexivity].
Qed.

Lemma set_entries (k : option Q) (b : SBlock) (m : list (option Q * SBlock))
    (k' : option Q) (b' : SBlock) :
  In (k', b') (block_time_map_set k b m) ->
  In (k', b') m \/ (b' = b /\ key_eqb k k' = true).
Proof.
  induction m as [|[k1 b1] m IH]; simpl.
  - intros [H|[]]. inversion H. right. split; [reflexivity|apply key_eqb_refl].
  - destruct (key_eqb k k1) eqn:E; simpl.
    + intros [H|H]; [|left; right; exact H].
      inversion H; subst. right. split; [reflexivity|exact E].
    + intros [H|H]; [left; left; exact H|].
      destruct (IH H) as [Hin|Hnew]; [left; right; exact Hin|right; exact Hnew].
Qed.

Lemma set_distinct (k : option Q) (b : SBlock) (m : list (option Q * SBlock)) :
  ForallOrdPairs (fun k k' => key_eqb k k' = false) (map fst m) ->
  ForallOrdPairs (fun k k' => key_eqb k k' = false)
    (map fst (block_time_map_set k b m)).
Proof.
  induction m as [|[k' b'] m IH]; simpl; intros H.
  - constructor; constructor.
  - destruct (key_eqb k k') eqn:E; simpl; [exact H|].
    inversion H as [|? ? Hf Hd]; subst.
    constructor; [|apply IH; exact Hd].
    apply Forall_forall. intros k'' Hin.
    destruct (set_keys _ _ _ _ Hin) as [Hold| ->].
    + rewrite Forall_forall in Hf. apply (Hf k'' Hold).
    + rewrite key_eqb_sym. exact E.
Qed.

Lemma build_invariant (L l : list SBlock) :
  incl l L ->
  forall m : list (option Q * SBlock),
    ForallOrdPairs (fun k k' => key_eqb k k' = false) (map fst m) ->
    (forall k b, In (k, b) m ->
       In b L /\ key_eqb (entry_start_time b) k = true) ->
    let m' :=
      fold_left (fun m b => block_time_map_set (entry_start_time b) b m) l m in
    ForallOrdPairs (fun k k' => key_eqb k k' = false) (map fst m')
    /\ (forall k b, In (k, b) m' ->
          In b L /\ key_eqb (entry_start_time b) k = true).
Proof.
  induction l as [|a l IH]; intros Hincl m Hd He; simpl.
  - split; assumption.
  - apply IH.
    + intros x Hx. apply Hincl. right. exact Hx.
    + apply set_distinct. exact Hd.
    + intros k b Hin. destruct (set_entries _ _ _ _ _ Hin) as [Hold|[-> Hk]].
      * apply (He k b Hold).
      * split; [apply Hincl; left; reflexivity|exact Hk].
Qed.

Lemma get_some (k : option Q) (m : list (option Q * SBlock)) :
  In k (map fst m) ->
  exists k' b,
    block_time_map_get k m = Some b /\ In (k', b) m /\ key_eqb k k' = true.
Proof.
  induction m as [|[k1 b1] m IH]; simpl; [intros []|].
  destruct (key_eqb k k1) eqn:E.
  - intros _. exists k1, b1. split; [reflexivity|].
    split; [left; reflexivity|exact E].
  - intros [->|Hin]; [rewrite key_eqb_refl in E; discriminate|].
    destruct (IH Hin) as [k' [b [Hg [Hm Hk]]]].
    exists k', b. split; [exact Hg|]. split; [right; exact Hm|exact Hk].
Qed.

Lemma starts_before_of_keys (b b2 : SBlock) (k k' k2 : option Q) :
  key_eqb (entry_start_time b) k' = true -> key_eqb k k' = true ->
  key_lt k k2 -> key_eqb (entry_start_time b2) k2 = true ->
  starts_before b b2.
Proof.
  unfold starts_before.
  destruct (entry_start_time b) as [x|], (entry_start_time b2) as [y|],
    k as [u|], k' as [u'|], k2 as [v|]; simpl; intros H1 H2 H3 H4;
    try discriminate; try contradiction.
  apply Qeq_bool_iff in H1, H2, H4.
  exists x, y. split; [reflexivity|]. split; [reflexivity|]. lra.
Qed.

Lemma lookup_sorted (L : list SBlock) (m : list (option Q * SBlock)) :
  (forall k b, In (k, b) m ->
     In b L /\ key_eqb (entry_start_time b) k = true) ->
  forall s : list (option Q),
    (forall k, In k s -> In k (map fst m)) ->
    StronglySorted key_lt s ->
    let out :=
      flat_map (fun k => match block_time_map_get k m with
                         | Some b => [b]
                         | None => []
                         end) s in
    StronglySorted starts_before out
    /\ forall b, In b out ->
         In b L
         /\ exists k k', In k s /\ key_eqb (entry_start_time b) k' = true
                         /\ key_eqb k k' = true.
Proof.
  intros He s. induction s as [|k s IH]; intros Hin Hs; simpl.
  - split; [constructor|intros b []].
  - inversion Hs as [|? ? Hs' Hf]; subst.
    destruct (IH (fun k' H => Hin k' (or_intror H)) Hs') as [Hsorted Hout].
    destruct (get_some k m (Hin k (or_introl eq_refl)))
      as [k' [b [Hg [Hm Hk]]]].
    rewrite Hg. simpl. destruct (He k' b Hm) as [HbL Hbk]. split.
    + constructor; [exact Hsorted|].
      apply Forall_forall. intros b2 Hb2.
      destruct (Hout b2 Hb2) as [_ [k2 [k2' [Hk2 [Hb2k Hk2k]]]]].
      rewrite Forall_forall in Hf.
      apply (starts_before_of_keys b b2 k k' k2' Hbk Hk).
      * pose proof (Hf k2 Hk2) as Hlt.
        destruct k as [u|], k2 as [v|], k2' as [v'|]; simpl in *;
          try contradiction; try discriminate.
        apply Qeq_bool_iff in Hk2k. lra.
      * exact Hb2k.
    + intros b' [<-|Hb'].
      * split; [exact HbL|]. exists k, k'.
        split; [left; reflexivity|]. split; [exact Hbk|exact Hk].
      * destruct (Hout b' Hb') as [HL [k2 [k2' [Hk2 Hrest]]]].
        split; [exact HL|]. exists k2, k2'. split; [right; exact Hk2|exact Hrest].
Qed.

Lemma sort_by_start_time_sorted (new_blocks out : list SBlock) :
  sort_by_start_time new_blocks = Ok out ->
  StronglySorted starts_before out /\ incl out new_blocks.
Proof.
  unfold sort_by_start_time.
  set (m := fold_left
              (fun m b => block_time_map_set (entry_start_time b) b m)
              new_blocks []).
  destruct (build_invariant new_blocks new_blocks (incl_refl _) [])
    as [Hd He]; [constructor|intros k b []|]. fold m in Hd, He.
  destruct (sorted_keys (map fst m)) as [s|] eqn:Es; simpl; [|discriminate].
  intros H. inversion H; subst out.
  destruct (lookup_sorted new_blocks m He s) as [Hsorted Hout].
  - intros k Hk.
    apply (Permutation_in _ (sorted_keys_permutation _ _ Es) Hk).
  - apply (sorted_keys_sorted _ _ Es Hd).
  - split; [exact Hsorted|]. intros b Hb. apply (Hout b Hb).
Qed.

(** X16.  When a strategy reports that its blocks are not sorted, a
    schedule that the driver returns is in strictly increasing order of
    [start_time], holds blocks of the strategy only, and so holds no two
    blocks with the same start time. *)
Theorem driver_sorts_unsorted_schedule :
  forall (_make_schedule : list OBlock -> option (Res (list SBlock * bool)))
         (blocks0 : list OBlock) (new_blocks out : list SBlock),
    _make_schedule blocks0 = Some (Ok (new_blocks, false)) ->
    Scheduler_call _make_schedule blocks0 = Some (Ok out) ->
    StronglySorted starts_before out /\ incl out new_blocks.
Proof.
  intros make blocks0 new_blocks out Hmake Hcall.
  unfold Scheduler_call in Hcall. rewrite map_id, Hmake in Hcall.
  simpl in Hcall. inversion Hcall as [Hsort].
  apply (sort_by_start_time_sorted new_blocks out Hsort).
Qed.

Lemma set_fresh (k : option Q) (b : SBlock) (m : list (option Q * SBlock)) :
  Forall (fun kb => key_eqb k (fst kb) = false) m ->
  block_time_map_set k b m = m ++ [(k, b)].
Proof.
  induction m as [|[k' b'] m IH]; intros H; simpl; [reflexivity|].
  inversion H as [|? ? Hk Hm]; subst. simpl in Hk. rewrite Hk.
  rewrite (IH Hm). reflexivity.
Qed.

Lemma build_fresh (l : list SBlock) :
  forall pre : list SBlock,
    distinct_start_times l ->
    Forall (fun p => Forall (fun b' => key_eqb (entry_start_time b')
                                         (entry_start_time p) = false) l)
      pre ->
    fold_left (fun m b => block_time_map_set (entry_start_time b) b m) l
      (map (fun b => (entry_start_time b, b)) pre)
    = map (fun b => (entry_start_time b, b)) (pre ++ l).
Proof.
  induction l as [|a l IH]; intros pre Hd Hpre; simpl.
  - rewrite app_nil_r. reflexivity.
  - destruct Hd as [_ [Ha Hd]]. rewrite set_fresh.
    + replace (map (fun b => (entry_start_time b, b)) pre
               ++ [(entry_start_time a, a)])
        with (map (fun b => (entry_start_time b, b)) (pre ++ [a]))
        by (rewrite map_app; reflexivity).
      rewrite (IH (pre ++ [a]) Hd).
      * rewrite <- app_assoc. reflexivity.
      * apply Forall_app. split.
        -- apply (Forall_impl _ (P := fun p =>
                    Forall (fun b' => key_eqb (entry_start_time b')
                                        (entry_start_time p) = false)
                      (a :: l))); [|exact Hpre].
           intros p Hp. inversion Hp. assumption.
        -- constructor; [exact Ha|constructor].
    + apply Forall_map. simpl.
      apply (Forall_impl _ (P := fun p =>
               Forall (fun b' => key_eqb (entry_start_time b')
                                   (entry_start_time p) = false)
                 (a :: l))); [|exact Hpre].
      intros p Hp. inversion Hp. assumption.
Qed.

Lemma get_own (L : list SBlock) :
  distinct_start_times L ->
  forall b, In b L ->
    block_time_map_get (entry_start_time b)
      (map (fun b => (entry_start_time b, b)) L) = Some b.
Proof.
  induction L as [|b1 L IH]; intros Hd b Hin; [destruct Hin|].
  destruct Hd as [_ [Hf Hd]]. simpl.
  destruct Hin as [<-|Hin].
  - rewrite key_eqb_refl. reflexivity.
  - rewrite Forall_forall in Hf. rewrite (Hf b Hin). apply (IH Hd b Hin).
Qed.

Lemma insert_key_total (x : Q) (ks : list (option Q)) :
  Forall (fun k => exists y, k = Some y) ks ->
  exists s, insert_key (Some x) ks = Ok s.
Proof.
  induction ks as [|k ks IH]; intros H; simpl; [eexists; reflexivity|].
  inversion H as [|? ? [y ->] Hks]; subst.
  destruct (Qle_bool x y); [eexists; reflexivity|].
  destruct (IH Hks) as [s ->]. simpl. eexists. reflexivity.
Qed.

Lemma sorted_keys_total (ks : list (option Q)) :
  Forall (fun k => exists y, k = Some y) ks ->
  exists s, sorted_keys ks = Ok s.
Proof.
  induction ks as [|k ks IH]; intros H; simpl; [eexists; reflexivity|].
  inversion H as [|? ? [x ->] Hks]; subst.
  destruct (IH Hks) as [s0 Es]. rewrite Es. simpl.
  apply insert_key_total.
  apply Forall_forall. intros z Hz.
  apply (Permutation_in _ (sorted_keys_permutation _ _ Es)) in Hz.
  rewrite Forall_forall in Hks. apply (Hks z Hz).
Qed.

Lemma distinct_start_times_set (l : list SBlock) :
  distinct_start_times l ->
  Forall (fun k => exists y, k = Some y) (map entry_start_time l).
Proof.
  induction l as [|b l IH]; intros Hd; simpl; [constructor|].
  destruct Hd as [Hb [_ Hd]]. constructor; [exact Hb|apply IH; exact Hd].
Qed.

(** X17.  When a strategy reports that its blocks are not sorted and their
    start times are set and pairwise different, the driver returns a
    schedule, and it holds exactly the blocks of the strategy, reordered. *)
Theorem driver_sort_keeps_distinct_blocks :
  forall (_make_schedule : list OBlock -> option (Res (list SBlock * bool)))
         (blocks0 : list OBlock) (new_blocks : list SBlock),
    _make_schedule blocks0 = Some (Ok (new_blocks, false)) ->
    distinct_start_times new_blocks ->
    exists out,
      Scheduler_call _make_schedule blocks0 = Some (Ok out)
      /\ Permutation out new_blocks.
Proof.
  intros make blocks0 new_blocks Hmake Hd.
  unfold Scheduler_call. rewrite map_id, Hmake. simpl.
  unfold sort_by_start_time.
  pose proof (build_fresh new_blocks [] Hd (Forall_nil _)) as Hm.
  simpl in Hm. rewrite Hm, map_map. cbn [fst].
  change (fun x : SBlock => entry_start_time x)
    with (@entry_start_time Observer Target).
  destruct (sorted_keys_total (map entry_start_time new_blocks)
              (distinct_start_times_set _ Hd)) as [s Es].
  rewrite Es. simpl. eexists. split; [reflexivity|].
  apply perm_trans with
    (flat_map (fun k => match block_time_map_get k
                                (map (fun b => (entry_start_time b, b))
                                   new_blocks) with
                        | Some b => [b]
                        | None => []
                        end) (map entry_start_time new_blocks)).
  - apply Permutation_flat_map. apply (sorted_keys_permutation _ _ Es).
  - rewrite flat_map_concat_map, map_map.
    assert (E : map (fun b => match block_time_map_get (entry_start_time b)
                                      (map (fun b => (entry_start_time b, b))
                                         new_blocks) with
                              | Some b' => [b']
                              | None => []
                              end) new_blocks
                = map (fun b => [b]) new_blocks).
    { apply map_ext_in. intros b Hb. rewrite (get_own _ Hd b Hb).
      reflexivity. }
    rewrite E. rewrite <- flat_map_concat_map.
    clear. induction new_blocks as [|b l IH]; simpl;
      [apply Permutation_refl|apply perm_skip; exact IH].
Qed.

End SortBranch.

(** X16, on an input: three blocks at 5 s, 1 s and 5 s again; the driver
    returns the block at 1 s and the later of the two blocks at 5 s. *)
Lemma driver_sorts_unsorted_schedule_witness :
  let new_blocks :=
    [Examples.wait_at "a" 5; Examples.wait_at "b" 1; Examples.wait_at "c" 5] in
  let out := [Examples.wait_at "b" 1; Examples.wait_at "c" 5] in
  Examples.unsorted_strategy new_blocks [] = Some (Ok (new_blocks, false))
  /\ Scheduler_call (Examples.unsorted_strategy new_blocks) []
     = Some (Ok out)
  /\ StronglySorted starts_before out
  /\ incl out new_blocks.
Proof.
  intros new_blocks out.
  assert (Hcall : Scheduler_call (Examples.unsorted_strategy new_blocks) []
                  = Some (Ok out))
    by (vm_compute; reflexivity).
  split; [reflexivity|]. split; [exact Hcall|].
  exact (driver_sorts_unsorted_schedule
           (Examples.unsorted_strategy new_blocks) [] new_blocks out
           eq_refl Hcall).
Defined.

(** X17, on an input: three blocks at 5 s, 1 s and 3 s. *)
Lemma driver_sort_keeps_distinct_blocks_witness :
  let new_blocks :=
    [Examples.wait_at "a" 5; Examples.wait_at "b" 1; Examples.wait_at "c" 3] in
  Examples.unsorted_strategy new_blocks [] = Some (Ok (new_blocks, false))
  /\ distinct_start_times new_blocks
  /\ exists out,
       Scheduler_call (Examples.unsorted_strategy new_blocks) []
       = Some (Ok out)
       /\ Permutation out new_blocks.
Proof.
  intros new_blocks.
  assert (Hd : distinct_start_times new_blocks).
  { simpl. repeat split; try (eexists; reflexivity); repeat constructor. }
  split; [reflexivity|]. split; [exact Hd|].
  exact (driver_sort_keeps_distinct_blocks
           (Examples.unsorted_strategy new_blocks) [] new_blocks eq_refl Hd).
Defined.

(** *** Nothing to schedule *)

Section NothingToSchedule.

Context {Observer Target : Type}.
Variable separation : Observer -> Q -> Target -> Target -> Q.

Local Abbreviation OBlock := (ObservingBlock.t Observer Target).
Local Abbreviation SBlock := (Block Observer Target).
Local Abbreviation Sched := (Scheduler.t Observer Target).

Lemma while_loop_not_entered
    (score : Sched -> OBlock -> list Q -> Res Q) (fuel : nat) (self : Sched)
    (st : @LoopState Observer Target) :
  loop_cond self st = false ->
  while_loop separation score fuel self st = Some (Ok st).
Proof. intros H. destruct fuel; simpl; rewrite H; reflexivity. Qed.

(** X18.  With an empty block list, or with a window that ends at or before
    its start, either strategy returns the empty schedule at once: no
    constraint is evaluated, the transitioner is not called and no gap is
    inserted. *)
Theorem nothing_to_schedule :
  forall (fuel : nat) (self : Sched) (blocks0 : list OBlock),
    blocks0 = [] \/ Scheduler.end_time self <= Scheduler.start_time self ->
    SequentialScheduler.call separation fuel self blocks0 = Some (Ok [])
    /\ SummingScheduler.call separation fuel self blocks0 = Some (Ok []).
Proof.
  intros fuel self blocks0 H.
  assert (Hc : loop_cond self (initial_state self blocks0) = false).
  { unfold loop_cond. apply andb_false_iff. destruct H as [->|Hle].
    - left. reflexivity.
    - right. apply Qlt_bool_false_iff. exact Hle. }
  unfold SequentialScheduler.call, SequentialScheduler._make_schedule,
    SummingScheduler.call, SummingScheduler._make_schedule,
    Scheduler_call, make_schedule.
  rewrite map_id, !while_loop_not_entered by exact Hc.
  split; reflexivity.
Qed.

End NothingToSchedule.

(** X18, on an input: an observable block and a window that ends where it
    starts. *)
Lemma nothing_to_schedule_witness :
  let self :=
    Examples.scheduler 0 [Examples.always_observable] None
      (30 * Examples.minute) in
  ([Examples.block_1h] = []
   \/ Scheduler.end_time self <= Scheduler.start_time self)
  /\ SequentialScheduler.call Examples.separation 3 self [Examples.block_1h]
     = Some (Ok [])
  /\ SummingScheduler.call Examples.separation 3 self [Examples.block_1h]
     = Some (Ok []).
Proof.
  intros self.
  assert (H : [Examples.block_1h] = []
              \/ Scheduler.end_time self <= Scheduler.start_time self)
    by (right; discriminate).
  split; [exact H|].
  exact (nothing_to_schedule Examples.separation 3 self [Examples.block_1h] H).
Defined.
